(** * zankobot: a shallow embedding of [index.js]

    The bot keeps two process-wide variables, [imageFiles] (the work queue)
    and [currentIndex] (the cursor), and talks to two external parties: the
    local file system (Node's [fs.promises]) and a Fediverse instance
    (through [axios.post]).  The embedding threads the two variables and a
    model of the file system through a small state-and-exception monad; the
    answers of the outside world (injected I/O faults, HTTP outcomes) are an
    explicit argument of every operation, and every interaction with the
    outside world is recorded as an event.

    Calls of [postNextImage] are run one after the other: the overlapping
    timer ticks that [setInterval] permits are outside this model. *)

From Stdlib Require Import ZArith Ascii String Lia.
From stdpp Require Import base option list gmap strings.

Local Open Scope string_scope.
Local Open Scope list_scope.
Local Open Scope Z_scope.

(** ** Regular expressions

    The scanner filters directory entries with the regular expression
    literal [/\.(jpg|jpeg|png|gif)$/i].  The fragment of the ECMAScript
    pattern language it uses is embedded as a datatype with the
    backtracking matcher of the language definition: a matcher takes the
    rest of the input and a continuation. *)

Module Regex.

Inductive regex : Type :=
  | Empty                      (* the empty pattern *)
  | Chr (c : ascii)            (* a pattern character *)
  | Seq (r1 r2 : regex)        (* concatenation *)
  | Alt (r1 r2 : regex)        (* r1|r2 *)
  | EndOfInput.                (* $ without the m flag *)

(** [Canonicalize] for the [i] flag without the [u] flag: a character is
    compared through its upper-case form.  File names are byte strings
    here (UTF-8); only the ASCII letters have a distinct upper-case form,
    which is also what ECMAScript does, since it never canonicalises a
    character outside ASCII to one inside. *)
Definition canonicalize (ignoreCase : bool) (c : ascii) : ascii :=
  if ignoreCase then
    let n := N_of_ascii c in
    if ((97 <=? n) && (n <=? 122))%N then ascii_of_N (n - 32) else c
  else c.

Fixpoint matcher (ignoreCase : bool) (r : regex) (input : string)
    (k : string -> bool) : bool :=
  match r with
  | Empty => k input
  | Chr c =>
      match input with
      | String c' rest =>
          if Ascii.eqb (canonicalize ignoreCase c) (canonicalize ignoreCase c')
          then k rest else false
      | EmptyString => false
      end
  | Seq r1 r2 =>
      matcher ignoreCase r1 input (fun rest => matcher ignoreCase r2 rest k)
  | Alt r1 r2 =>
      matcher ignoreCase r1 input k || matcher ignoreCase r2 input k
  | EndOfInput =>
      match input with
      | EmptyString => k EmptyString
      | String _ _ => false
      end
  end.

(** [RegExp.prototype.test]: the pattern is tried at every start index,
    from 0 up to and including the length of the input. *)
Fixpoint test (ignoreCase : bool) (r : regex) (input : string) : bool :=
  matcher ignoreCase r input (fun _ => true) ||
  match input with
  | EmptyString => false
  | String _ rest => test ignoreCase r rest
  end.

(** A word of pattern characters, as in [jpg]. *)
Fixpoint word (w : string) : regex :=
  match w with
  | EmptyString => Empty
  | String c w' => Seq (Chr c) (word w')
  end.

End Regex.

(** [/\.(jpg|jpeg|png|gif)$/i]; the flag is passed to [Regex.test]. *)
Definition image_pattern : Regex.regex :=
  Regex.Seq (Regex.Chr ".")
    (Regex.Seq
       (Regex.Alt (Regex.word "jpg")
          (Regex.Alt (Regex.word "jpeg")
             (Regex.Alt (Regex.word "png") (Regex.word "gif"))))
       Regex.EndOfInput).

(** The callback of [files.filter] in [loadImageFiles]:
    [file => /\.(jpg|jpeg|png|gif)$/i.test(file)]. *)
Definition is_image_file (file : string) : bool :=
  Regex.test true image_pattern file.

(** ** JavaScript values, errors and paths *)

#[local] Set Warnings "-register-all".

(** The values that travel through the program as response bodies and as
    the media handle. *)
Inductive value : Type :=
  | VUndefined
  | VNull
  | VBool (b : bool)
  | VNum (n : Z)
  | VStr (s : string)
  | VObj (fields : list (string * value)).

(** An error object, with the three properties the program reads:
    [error.code] (set by Node's file system errors), [error.message], and
    [error.response] (set by axios when the server answered with a status
    outside 2xx), holding [response.status] and [response.data]. *)
Record error : Type := Error {
  code : option string;
  message : string;
  response : option (Z * value)
}.

Definition TypeError (msg : string) : error :=
  {| code := None; message := msg; response := None |}.

Definition fs_error (c : string) : error :=
  {| code := Some c; message := c; response := None |}.

(** A path is kept as the directory and the entry name it was joined
    from.  [path.join(dir, name)] and [path.basename(p)] belong to Node,
    not to this program; for the entry names that [fs.readdir] reports
    (one segment, neither [.] nor [..]) the record says what they do, up
    to the spelling of the directory. *)
Record path : Type := Path { dirname : string; basename : string }.

Definition path_join (dir file : string) : path := Path dir file.

Definition bytes : Type := list Byte.byte.

(** ** The file system

    A table from directory names to directories; a directory lists its
    entries in the order [fs.readdir] reports them.  The two configured
    folders are looked up under the names the configuration gives them.

    The table is flat.  It holds the directories that are named, not the
    tree they hang in: the directories above the two folders are not
    part of it, and neither is a nesting of one folder in the other.  A
    configuration that puts one folder inside the other is outside this
    model. *)
Inductive node : Type :=
  | File (content : bytes)
  | Folder.

Abbreviation directory := (list (string * node)).

Abbreviation filesystem := (gmap string directory).

Fixpoint dir_lookup (name : string) (d : directory) : option node :=
  match d with
  | [] => None
  | (n, x) :: d' => if String.eqb n name then Some x else dir_lookup name d'
  end.

Fixpoint dir_remove (name : string) (d : directory) : directory :=
  match d with
  | [] => []
  | (n, x) :: d' =>
      if String.eqb n name then dir_remove name d' else (n, x) :: dir_remove name d'
  end.

(** Put an entry: in place when the name exists, at the end otherwise. *)
Fixpoint dir_put (name : string) (x : node) (d : directory) : directory :=
  match d with
  | [] => [(name, x)]
  | (n, y) :: d' =>
      if String.eqb n name then (n, x) :: d' else (n, y) :: dir_put name x d'
  end.

Definition dir_names (d : directory) : list string := map fst d.

Definition fs_lookup (fsys : filesystem) (p : path) : option node :=
  d ← fsys !! dirname p; dir_lookup (basename p) d.

(** ** Configuration, program state, events *)

(** The [config] object, as read from the environment variables or
    their defaults; [postInterval] is the constant below. *)
Record config : Type := Config {
  instanceUrl : string;
  accessToken : string;
  imageFolder : string;
  postedFolder : string;
  statusText : string
}.

(** [15 * 60 * 1000] *)
Definition postInterval : Z := 15 * 60 * 1000.

(** The two module-level variables, and the file system they live next to. *)
Record state : Type := State {
  imageFiles : list string;
  currentIndex : Z;
  fs : filesystem
}.

Definition initial (fs0 : filesystem) : state :=
  {| imageFiles := []; currentIndex := 0; fs := fs0 |}.

Inductive level : Type := LInfo | LWarn | LError.

(** One constructor for each call of [log] in the source, carrying the
    values interpolated into its template; the time stamp that [log]
    prepends is left out. *)
Inductive log_message : Type :=
  | MsgCreatingDirectory (directory : string)
  | MsgStartingToLoad
  | MsgLoaded (count : nat) (folder : string)
  | MsgImageFiles (files : list string)
  | MsgErrorReadingFolder (msg : string)
  | MsgMoved (fileName folder : string)
  | MsgErrorMoving (fileName msg : string)
  | MsgAttempting (imagePath : path)
  | MsgFileRead
  | MsgErrorReadingFile (imagePath : path) (msg : string)
  | MsgUploading
  | MsgMediaUploaded (mediaId : value)
  | MsgPostingStatus
  | MsgPosted (fileName : string)
  | MsgErrorPosting (fileName msg : string)
  | MsgResponseStatus (status : Z)
  | MsgResponseData (data : value)
  | MsgPreparing
  | MsgNoImages
  | MsgSkipping
  | MsgSelected (imagePath : path)
  | MsgUpdatedIndex (index : Z) (remaining : nat)
  | MsgStarting
  | MsgConfiguration (c : config)
  | MsgFirstImage
  | MsgInterval (minutes : Z).

(** The two requests the program sends. *)
Inductive request : Type :=
  | PostMedia (url : string) (field : string) (content : bytes)
      (filename : string) (authorization : string)
  | PostStatus (url : string) (status : string) (media_ids : list value)
      (authorization : string).

(** Everything the program does to the outside world. *)
Inductive event : Type :=
  | EvLog (l : level) (m : log_message)
  | EvAccess (dir : string)
  | EvMkdir (dir : string)
  | EvReaddir (dir : string)
  | EvReadFile (p : path)
  | EvRename (src dst : path)
  | EvRequest (r : request).

Definition logged (evs : list event) : list (level * log_message) :=
  omap (fun ev => match ev with EvLog l m => Some (l, m) | _ => None end) evs.

Definition requests (evs : list event) : list request :=
  omap (fun ev => match ev with EvRequest r => Some r | _ => None end) evs.

Definition status_requests (evs : list event) : list request :=
  omap (fun ev => match ev with
                  | EvRequest (PostStatus u s ids a) => Some (PostStatus u s ids a)
                  | _ => None end) evs.

Definition renames (evs : list event) : list (path * path) :=
  omap (fun ev => match ev with EvRename a b => Some (a, b) | _ => None end) evs.

Definition selections (evs : list event) : list path :=
  omap (fun ev => match ev with EvLog _ (MsgSelected p) => Some p | _ => None end) evs.

(** The scanner announces itself with its first statement. *)
Definition scans (evs : list event) : list unit :=
  omap (fun ev => match ev with
                  | EvLog LInfo MsgStartingToLoad => Some tt
                  | _ => None end) evs.

(** The warning of a skipped cycle. *)
Definition skips (evs : list event) : list unit :=
  omap (fun ev => match ev with
                  | EvLog LWarn MsgSkipping => Some tt
                  | _ => None end) evs.

(** ** The monad: state, exceptions, emitted events *)

Inductive outcome (A : Type) : Type :=
  | Ret (a : A)
  | Throw (e : error).
Arguments Ret {A} a.
Arguments Throw {A} e.

Definition M (A : Type) : Type := state -> outcome A * state * list event.

Definition ret {A} (a : A) : M A := fun s => (Ret a, s, []).

Definition throw {A} (e : error) : M A := fun s => (Throw e, s, []).

Definition bind {A B} (m : M A) (f : A -> M B) : M B := fun s =>
  match m s with
  | (Ret a, s1, t1) => let '(r, s2, t2) := f a s1 in (r, s2, t1 ++ t2)
  | (Throw e, s1, t1) => (Throw e, s1, t1)
  end.

(** [try { m } catch (error) { handler }] *)
Definition try_catch {A} (m : M A) (handler : error -> M A) : M A := fun s =>
  match m s with
  | (Ret a, s1, t1) => (Ret a, s1, t1)
  | (Throw e, s1, t1) => let '(r, s2, t2) := handler e s1 in (r, s2, t1 ++ t2)
  end.

Declare Scope js_scope.
Delimit Scope js_scope with js.
Bind Scope js_scope with M.
Notation "'let*' x := m 'in' k" := (bind m (fun x => k))
  (at level 10, x name, m at level 100, k at level 200) : js_scope.
Notation "m ;; k" := (bind m (fun _ => k))
  (at level 100, k at level 200, right associativity) : js_scope.
Local Open Scope js_scope.

Definition emit (ev : event) : M unit := fun s => (Ret tt, s, [ev]).

Definition get : M state := fun s => (Ret s, s, []).

Definition set_imageFiles (l : list string) : M unit := fun s =>
  (Ret tt, {| imageFiles := l; currentIndex := currentIndex s; fs := fs s |}, []).

Definition set_currentIndex (i : Z) : M unit := fun s =>
  (Ret tt, {| imageFiles := imageFiles s; currentIndex := i; fs := fs s |}, []).

Definition set_fs (f : filesystem) : M unit := fun s =>
  (Ret tt, {| imageFiles := imageFiles s; currentIndex := currentIndex s; fs := f |}, []).

(** [log(message, level = 'info')] *)
Definition log (m : log_message) (l : level) : M unit := emit (EvLog l m).

(** The three components of a run. *)
Definition result_of {A} (out : outcome A * state * list event) : outcome A :=
  fst (fst out).
Definition state_of {A} (out : outcome A * state * list event) : state :=
  snd (fst out).
Definition events_of {A} (out : outcome A * state * list event) : list event :=
  snd out.

(** ** The outside world

    A [fault] is an answer of the environment to one file system call:
    [None] lets the call go by the modelled file system, [Some e] makes
    it fail with [e] (permission denied, I/O error, a file that another
    process has removed, ...). *)
Definition fault : Type := option error.

(** [fs.access(directory)] *)
Definition fs_access (f : fault) (dir : string) : M unit :=
  emit (EvAccess dir) ;;
  match f with
  | Some e => throw e
  | None =>
      let* s := get in
      match fs s !! dir with
      | Some _ => ret tt
      | None => throw (fs_error "ENOENT")
      end
  end.

(** [fs.mkdir(directory, { recursive: true })]: no error when the
    directory exists.  Of what the call does, the table records the new
    directory itself; the missing directories above it, which the call
    creates as well, and the new entry in the listing of its parent lie
    outside the table. *)
Definition fs_mkdir (f : fault) (dir : string) : M unit :=
  emit (EvMkdir dir) ;;
  match f with
  | Some e => throw e
  | None =>
      let* s := get in
      match fs s !! dir with
      | Some _ => ret tt
      | None => set_fs (<[dir := []]> (fs s))
      end
  end.

(** [fs.readdir(directory)]: the names of the entries, of whatever kind. *)
Definition fs_readdir (f : fault) (dir : string) : M (list string) :=
  emit (EvReaddir dir) ;;
  match f with
  | Some e => throw e
  | None =>
      let* s := get in
      match fs s !! dir with
      | Some d => ret (dir_names d)
      | None => throw (fs_error "ENOENT")
      end
  end.

(** [fs.readFile(path)] *)
Definition fs_readFile (f : fault) (p : path) : M bytes :=
  emit (EvReadFile p) ;;
  match f with
  | Some e => throw e
  | None =>
      let* s := get in
      match fs_lookup (fs s) p with
      | Some (File content) => ret content
      | Some Folder => throw (fs_error "EISDIR")
      | None => throw (fs_error "ENOENT")
      end
  end.

(** [fs.rename(src, dst)]: the entry leaves its directory and is put
    under the new name in the directory of [dst], replacing a file of
    that name.  A failed call changes nothing. *)
Definition fs_rename (f : fault) (src dst : path) : M unit :=
  emit (EvRename src dst) ;;
  match f with
  | Some e => throw e
  | None =>
      let* s := get in
      match fs_lookup (fs s) src, fs s !! dirname dst with
      | Some x, Some _ =>
          match fs_lookup (fs s) dst with
          | Some Folder => throw (fs_error "EISDIR")
          | _ =>
              let fs1 := alter (dir_remove (basename src)) (dirname src) (fs s) in
              set_fs (alter (dir_put (basename dst) x) (dirname dst) fs1)
          end
      | _, _ => throw (fs_error "ENOENT")
      end
  end.

(** The answer to one [axios.post]: the promise resolves with a response
    whose [data] is the decoded body, or rejects with an error. *)
Inductive http : Type :=
  | Resolved (data : value)
  | Rejected (e : error).

(** [axios.post(...)], returning [response.data]. *)
Definition axios_post (answer : http) (r : request) : M value :=
  emit (EvRequest r) ;;
  match answer with
  | Resolved data => ret data
  | Rejected e => throw e
  end.

Fixpoint own_property (key : string) (fields : list (string * value)) : value :=
  match fields with
  | [] => VUndefined
  | (k, v) :: rest => if String.eqb k key then v else own_property key rest
  end.

(** [object.key]: reading a property of [undefined] or [null] throws a
    TypeError; a plain object gives its own property or [undefined]; the
    primitives have no property of the one name read here ([id]). *)
Definition property (object : value) (key : string) : outcome value :=
  match object with
  | VUndefined | VNull => Throw (TypeError "Cannot read properties")
  | VObj fields => Ret (own_property key fields)
  | VBool _ | VNum _ | VStr _ => Ret VUndefined
  end.

Definition get_property (object : value) (key : string) : M value :=
  fun s => (property object key, s, []).

(** [array[index]] for a number that holds an integer. *)
Definition js_index {A} (array : list A) (index : Z) : option A :=
  if 0 <=? index then array !! Z.to_nat index else None.

(** [array.splice(start, 1)]: a negative [start] counts from the end, a
    [start] past the end removes nothing. *)
Definition splice1 {A} (array : list A) (start : Z) : list A :=
  let len := Z.of_nat (length array) in
  let actualStart := if start <? 0 then Z.max (len + start) 0 else Z.min start len in
  delete (Z.to_nat actualStart) array.

(** What the environment answers during one call of [postNextImage]
    (or of [loadImageFiles]), one field for each call site. *)
Record env : Type := Env {
  access_images : fault;
  mkdir_images : fault;
  access_posted : fault;
  mkdir_posted : fault;
  readdir_images : fault;
  readFile_image : fault;
  upload : http;
  create_status : http;
  rename_image : fault
}.

(** ** The program *)

Section Program.

Variable cfg : config.

(** [ensureDirectoryExists(directory)] *)
Definition ensureDirectoryExists (f_access f_mkdir : fault) (directory : string)
    : M unit :=
  try_catch
    (fs_access f_access directory)
    (fun error =>
       if decide (code error = Some "ENOENT") then
         log (MsgCreatingDirectory directory) LInfo ;;
         fs_mkdir f_mkdir directory
       else
         throw error).

(** The body of the [try] block of [loadImageFiles]. *)
Definition loadImageFiles_try (e : env) : M unit :=
  log MsgStartingToLoad LInfo ;;
  ensureDirectoryExists (access_images e) (mkdir_images e) (imageFolder cfg) ;;
  ensureDirectoryExists (access_posted e) (mkdir_posted e) (postedFolder cfg) ;;
  let* files := fs_readdir (readdir_images e) (imageFolder cfg) in
  set_imageFiles (List.filter is_image_file files) ;;
  let* s := get in
  log (MsgLoaded (length (imageFiles s)) (imageFolder cfg)) LInfo ;;
  log (MsgImageFiles (imageFiles s)) LInfo.

(** [loadImageFiles()] *)
Definition loadImageFiles (e : env) : M unit :=
  try_catch
    (loadImageFiles_try e)
    (fun error => log (MsgErrorReadingFolder (message error)) LError).

(** [movePostedImage(imagePath)] *)
Definition movePostedImage (e : env) (imagePath : path) : M unit :=
  let fileName := basename imagePath in
  let destinationPath := path_join (postedFolder cfg) fileName in
  try_catch
    (fs_rename (rename_image e) imagePath destinationPath ;;
     log (MsgMoved fileName (postedFolder cfg)) LInfo)
    (fun error => log (MsgErrorMoving fileName (message error)) LError).

(** The second [try] block of [postImageToFediverse]; [formData] is the
    content and the file name appended under the field [file]. *)
Definition postImageToFediverse_try (e : env) (imagePath : path)
    (formData : bytes * string) : M unit :=
  log MsgUploading LInfo ;;
  let* mediaResponse_data :=
    axios_post (upload e)
      (PostMedia (instanceUrl cfg ++ "/api/v1/media")%string "file"
         (fst formData) (snd formData) ("Bearer " ++ accessToken cfg)%string) in
  let* mediaId := get_property mediaResponse_data "id" in
  log (MsgMediaUploaded mediaId) LInfo ;;
  log MsgPostingStatus LInfo ;;
  axios_post (create_status e)
    (PostStatus (instanceUrl cfg ++ "/api/v1/statuses")%string (statusText cfg)
       [mediaId] ("Bearer " ++ accessToken cfg)%string) ;;
  log (MsgPosted (basename imagePath)) LInfo ;;
  movePostedImage e imagePath.

(** [postImageToFediverse(imagePath)]; the first [try] block yields the
    form data, or nothing when its [catch] block returns from the
    function. *)
Definition postImageToFediverse (e : env) (imagePath : path) : M unit :=
  log (MsgAttempting imagePath) LInfo ;;
  let* formData :=
    try_catch
      (let* fileContent := fs_readFile (readFile_image e) imagePath in
       log MsgFileRead LInfo ;;
       ret (Some (fileContent, basename imagePath)))
      (fun error =>
         log (MsgErrorReadingFile imagePath (message error)) LError ;;
         ret None) in
  match formData with
  | None => ret tt
  | Some formData =>
      try_catch
        (postImageToFediverse_try e imagePath formData)
        (fun error =>
           log (MsgErrorPosting (basename imagePath) (message error)) LError ;;
           match response error with
           | Some (status, data) =>
               log (MsgResponseStatus status) LError ;;
               log (MsgResponseData data) LError
           | None => ret tt
           end)
  end.

(** [path.join(config.imageFolder, imageFiles[currentIndex])]: Node
    throws a TypeError for an argument that is not a string. *)
Definition select_path (s : state) : M path :=
  match js_index (imageFiles s) (currentIndex s) with
  | Some file => ret (path_join (imageFolder cfg) file)
  | None => throw (TypeError "The path argument must be of type string")
  end.

(** The statements of [postNextImage] after the emptiness check. *)
Definition postNextImage_selected (e : env) : M unit :=
  let* s := get in
  let* imagePath := select_path s in
  log (MsgSelected imagePath) LInfo ;;
  postImageToFediverse e imagePath ;;
  let* s := get in
  set_imageFiles (splice1 (imageFiles s) (currentIndex s)) ;;
  let* s := get in
  (if decide (length (imageFiles s) = 0%nat) then
     set_currentIndex 0
   else
     set_currentIndex (Z.rem (currentIndex s) (Z.of_nat (length (imageFiles s))))) ;;
  let* s := get in
  log (MsgUpdatedIndex (currentIndex s) (length (imageFiles s))) LInfo.

(** [postNextImage()] *)
Definition postNextImage (e : env) : M unit :=
  log MsgPreparing LInfo ;;
  let* s := get in
  if decide (length (imageFiles s) = 0%nat) then
    log MsgNoImages LInfo ;;
    loadImageFiles e ;;
    let* s := get in
    if decide (length (imageFiles s) = 0%nat) then
      log MsgSkipping LWarn
    else
      postNextImage_selected e
  else
    postNextImage_selected e.

(** One firing of the timer.  Between two calls other processes may
    have changed the file system: [world], when given, is what the call
    finds. *)
Record tick : Type := Tick { world : option filesystem; answers : env }.

Definition interfere (w : option filesystem) : M unit :=
  match w with
  | Some f => set_fs f
  | None => ret tt
  end.

(** The calls of [postNextImage]: the immediate one of [start], then
    those of [setInterval].  A call that throws is a rejected promise
    nobody handles, which ends the process. *)
Fixpoint cycles (ts : list tick) : M unit :=
  match ts with
  | [] => ret tt
  | t :: ts' =>
      interfere (world t) ;;
      postNextImage (answers t) ;;
      cycles ts'
  end.

(** [start()], cut off after finitely many firings of the timer. *)
Definition start (e0 : env) (ts : list tick) : M unit :=
  log MsgStarting LInfo ;;
  log (MsgConfiguration
         {| instanceUrl := instanceUrl cfg; accessToken := "[REDACTED]";
            imageFolder := imageFolder cfg; postedFolder := postedFolder cfg;
            statusText := statusText cfg |}) LInfo ;;
  loadImageFiles e0 ;;
  log MsgFirstImage LInfo ;;
  match ts with
  | [] => ret tt
  | t :: ts' =>
      interfere (world t) ;;
      postNextImage (answers t) ;;
      log (MsgInterval (postInterval / 60000)) LInfo ;;
      cycles ts'
  end.

End Program.

(** ** The words of the specification *)

(** Lower case of an ASCII letter, the usual reading of "compared
    case-insensitively". *)
Definition lower (c : ascii) : ascii :=
  let n := N_of_ascii c in
  if ((65 <=? n) && (n <=? 90))%N then ascii_of_N (n + 32) else c.

Fixpoint lowercase (s : string) : string :=
  match s with
  | EmptyString => EmptyString
  | String c s' => String (lower c) (lowercase s')
  end.

Definition image_extensions : list string := ["jpg"; "jpeg"; "png"; "gif"].

(** "The name ends in an extension from {jpg, jpeg, png, gif}, compared
    case-insensitively": a stem, a dot, and one of the four words in any
    mix of cases. *)
Definition has_image_extension (name : string) : Prop :=
  exists stem ext : string,
    name = (stem ++ "." ++ ext)%string /\ lowercase ext ∈ image_extensions.

(** The entries of the source directory; none when it does not exist. *)
Definition source_entries (cfg : config) (fsys : filesystem) : directory :=
  default [] (fsys !! imageFolder cfg).

Definition is_resolved (answer : http) : bool :=
  match answer with Resolved _ => true | Rejected _ => false end.

(** Both API calls succeed: the attempt sent its two requests and the
    server answered both with success. *)
Definition both_calls_succeed (e : env) (evs : list event) : Prop :=
  length (requests evs) = 2%nat /\
  is_resolved (upload e) = true /\ is_resolved (create_status e) = true.

(** Whether the call [fs.rename(src, dst)] goes through on [fsys] under
    the answer [f] of the environment. *)
Definition rename_succeeds (f : fault) (fsys : filesystem) (src dst : path) : bool :=
  match result_of (fs_rename f src dst (initial fsys)) with
  | Ret _ => true
  | Throw _ => false
  end.

(** Whether reading the file goes through. *)
Definition read_succeeds (f : fault) (fsys : filesystem) (p : path) : bool :=
  match result_of (fs_readFile f p (initial fsys)) with
  | Ret _ => true
  | Throw _ => false
  end.

(** [f'] is [f], or [f] with the missing directory [d] created. *)
Definition mkdirs (d : string) (f f' : filesystem) : Prop :=
  f' = f \/ (f !! d = None /\ f' = <[d := []]> f).

(** The cursor after the removal that left [q'] (lines 126 to 130). *)
Definition next_index (q' : list string) (i : Z) : Z :=
  if decide (length q' = 0%nat) then 0 else Z.rem i (Z.of_nat (length q')).

(** The cursor invariant of the data model. *)
Definition cursor_in_range (s : state) : Prop :=
  (imageFiles s = [] /\ currentIndex s = 0) \/
  (0 <= currentIndex s < Z.of_nat (length (imageFiles s))).

(** ** A small world to run the program in

    The scenario of the specification: a source directory with [a.jpg],
    [b.png] and [c.txt] (and a folder), an empty archive directory, and a
    server that answers the upload with media id 42 and the post with
    id 100. *)
Definition example_config : config :=
  {| instanceUrl := "https://social.example";
     accessToken := "secret";
     imageFolder := "./images";
     postedFolder := "./posted";
     statusText := "#ZoltanAsanski #Photography #Art" |}.

Definition example_fs : filesystem :=
  {[ "./images" := [("a.jpg", File [Byte.x01]); ("b.png", File [Byte.x02]);
                    ("c.txt", File [Byte.x03]); ("old", Folder)];
     "./posted" := [] ]}.

Definition empty_fs : filesystem := {[ "./images" := []; "./posted" := [] ]}.

(** An environment that injects no fault before the publisher, and
    answers the publisher as given. *)
Definition answers_with (read : fault) (up st : http) (ren : fault) : env :=
  {| access_images := None; mkdir_images := None;
     access_posted := None; mkdir_posted := None;
     readdir_images := None; readFile_image := read;
     upload := up; create_status := st; rename_image := ren |}.

Definition media_42 : http := Resolved (VObj [("id", VStr "42")]).
Definition status_100 : http := Resolved (VObj [("id", VStr "100")]).

Definition calm : env := answers_with None media_42 status_100 None.

Definition unauthorized : http :=
  Rejected {| code := None; message := "Request failed with status code 401";
              response := Some (401, VObj [("error", VStr "The access token is invalid")]) |}.

(** The scanner cannot look at the source directory. *)
Definition no_access : env :=
  {| access_images := Some (fs_error "EACCES"); mkdir_images := None;
     access_posted := None; mkdir_posted := None;
     readdir_images := None; readFile_image := None;
     upload := media_42; create_status := status_100; rename_image := None |}.

(** A state in which a cycle of a run can begin: the two program
    variables as [start] has left them after the firings [ts] of the
    timer, and the file system [f] found at that moment. *)
Definition between_cycles (cfg : config) (fs0 : filesystem) (e0 : env)
    (ts : list tick) (f : filesystem) : state :=
  let s0 := state_of (start cfg e0 ts (initial fs0)) in
  {| imageFiles := imageFiles s0; currentIndex := currentIndex s0; fs := f |}.

(** ** Further observers *)

(** What the scanner may do to the outside world: log, and look at or
    create directories. *)
Definition is_scan_event (ev : event) : bool :=
  match ev with
  | EvLog _ _ | EvAccess _ | EvMkdir _ | EvReaddir _ => true
  | EvReadFile _ | EvRename _ _ | EvRequest _ => false
  end.

(** What the publisher may do: log, read a file, send a request, move a
    file. *)
Definition is_publish_event (ev : event) : bool :=
  match ev with
  | EvLog _ _ | EvReadFile _ | EvRename _ _ | EvRequest _ => true
  | EvAccess _ | EvMkdir _ | EvReaddir _ => false
  end.

Definition mkdir_calls (evs : list event) : list string :=
  omap (fun ev => match ev with EvMkdir d => Some d | _ => None end) evs.

(** The request of lines 77 to 82, for a file content and a file name. *)
Definition media_request (cfg : config) (content : bytes) (name : string) : request :=
  PostMedia (instanceUrl cfg ++ "/api/v1/media")%string "file" content name
    ("Bearer " ++ accessToken cfg)%string.

(** The request of lines 88 to 95, for a media identifier. *)
Definition status_request (cfg : config) (mediaId : value) : request :=
  PostStatus (instanceUrl cfg ++ "/api/v1/statuses")%string (statusText cfg)
    [mediaId] ("Bearer " ++ accessToken cfg)%string.

(** The lines that [catch] block of lines 99 to 105 logs for an error. *)
Definition posting_error_log (fileName : string) (err : error) : list event :=
  EvLog LError (MsgErrorPosting fileName (message err)) ::
  match response err with
  | Some (status, data) =>
      [EvLog LError (MsgResponseStatus status); EvLog LError (MsgResponseData data)]
  | None => []
  end.

(** A name without a dot. *)
Fixpoint dot_free (s : string) : bool :=
  match s with
  | EmptyString => true
  | String c s' => negb (Ascii.eqb c ".") && dot_free s'
  end.

(** A file system on which the program has never run. *)
Definition bare_fs : filesystem := ∅.

(** The configuration is logged with the token blanked out. *)
Definition logs_redacted_token (ev : event) : Prop :=
  match ev with
  | EvLog _ (MsgConfiguration c) => accessToken c = "[REDACTED]"
  | _ => True
  end.

(** An upload is the upload of a name that passes the filter. *)
Definition uploads_image (ev : event) : Prop :=
  match ev with
  | EvRequest (PostMedia _ _ _ name _) => is_image_file name = true
  | _ => True
  end.

(** A file system call that stays within the two configured folders:
    directories are looked at or created under the two names only, the
    source folder alone is listed, files are read in the source folder,
    and moved from it into the archive folder under their own name. *)
Definition within_folders (cfg : config) (ev : event) : Prop :=
  match ev with
  | EvAccess d | EvMkdir d => d = imageFolder cfg \/ d = postedFolder cfg
  | EvReaddir d => d = imageFolder cfg
  | EvReadFile p => dirname p = imageFolder cfg
  | EvRename src dst =>
      dirname src = imageFolder cfg /\ dirname dst = postedFolder cfg /\
      basename dst = basename src
  | EvLog _ _ | EvRequest _ => True
  end.

(** What [ensureDirectoryExists(d)] may do to the outside world: call
    [fs.access] and [fs.mkdir] on [d], and announce the creation. *)
Definition concerns_directory (d : string) (ev : event) : Prop :=
  match ev with
  | EvAccess d' | EvMkdir d' => d' = d
  | EvLog l m => l = LInfo /\ m = MsgCreatingDirectory d
  | EvReaddir _ | EvReadFile _ | EvRename _ _ | EvRequest _ => False
  end.

(** A source folder that holds two folders, one of them with the name of
    an image. *)
Definition album_fs : filesystem :=
  {[ "./images" := [("album.GIF", Folder); ("notes", Folder)];
     "./posted" := [] ]}.

(** * Properties *)

Example is_image_file_samples :
  map is_image_file
    ["a.jpg"; "b.PNG"; "c.txt"; "d.bmp"; "e.JpEg"; "jpg"; ".gif"; "x.jpg.txt"; "x.gif "]
  = [true; true; false; false; true; false; true; false; false].
Proof. reflexivity. Qed.

(** ** The extension filter *)

Lemma lower_canonicalize c : lower (Regex.canonicalize true c) = lower c.
Proof. destruct c as [[] [] [] [] [] [] [] []]; reflexivity. Qed.

Lemma canonicalize_lower c :
  Regex.canonicalize true (lower c) = Regex.canonicalize true c.
Proof. destruct c as [[] [] [] [] [] [] [] []]; reflexivity. Qed.

Lemma canonicalize_eq_lower c c' :
  Regex.canonicalize true c = Regex.canonicalize true c' <-> lower c = lower c'.
Proof.
  split; intros H.
  - rewrite <- (lower_canonicalize c), H. apply lower_canonicalize.
  - rewrite <- (canonicalize_lower c), H. apply canonicalize_lower.
Qed.

#[local] Arguments Regex.canonicalize : simpl never.

Lemma append_empty s : ("" ++ s)%string = s.
Proof. reflexivity. Qed.

Lemma append_String c a s : (String c a ++ s)%string = String c (a ++ s).
Proof. reflexivity. Qed.

Ltac string_app := rewrite ?append_String, ?append_empty in *.

Lemma test_iff ic r s :
  Regex.test ic r s = true <->
  exists pre suf, s = (pre ++ suf)%string /\ Regex.matcher ic r suf (fun _ => true) = true.
Proof.
  induction s as [|c s IH]; simpl.
  - rewrite orb_false_r. split.
    + intros H. exists EmptyString, EmptyString. auto.
    + intros (pre & suf & Hs & H). destruct pre; [|discriminate].
      string_app. subst suf. exact H.
  - rewrite orb_true_iff, IH. split.
    + intros [H | (pre & suf & -> & H)].
      * exists EmptyString, (String c s). auto.
      * exists (String c pre), suf. auto.
    + intros (pre & suf & Hs & H). destruct pre as [|c' pre]; string_app.
      * subst suf. now left.
      * injection Hs as -> ->. right. eauto.
Qed.

(** A word matches the strings that start with the word, letter by
    letter up to case. *)
Lemma matcher_word w s k :
  Regex.matcher true (Regex.word w) s k = true <->
  exists w' rest, s = (w' ++ rest)%string /\ lowercase w' = lowercase w /\ k rest = true.
Proof.
  revert s. induction w as [|c w IH]; intros s; simpl.
  - split.
    + intros H. exists EmptyString, s. auto.
    + intros (w' & rest & -> & Hw & H). destruct w'; [exact H | discriminate].
  - destruct s as [|c' s].
    + split; [discriminate|]. intros (w' & rest & Hs & Hw & _).
      destruct w'; discriminate.
    + destruct (Ascii.eqb_spec (Regex.canonicalize true c) (Regex.canonicalize true c')) as [Hc|Hc].
      * rewrite IH. apply canonicalize_eq_lower in Hc. split.
        -- intros (w' & rest & -> & Hw & H). exists (String c' w'), rest.
           simpl. rewrite Hw, Hc. auto.
        -- intros (w' & rest & Hs & Hw & H). destruct w' as [|a w']; [discriminate|].
           string_app. simpl in Hw. injection Hs as -> ->. injection Hw as _ Hw. eauto.
      * split; [discriminate|]. intros (w' & rest & Hs & Hw & _).
        destruct w' as [|a w']; [discriminate|]. string_app. simpl in Hw.
        injection Hs as -> ->. injection Hw as Ha _. exfalso. apply Hc.
        now apply canonicalize_eq_lower.
Qed.

Lemma canonicalize_dot c :
  Regex.canonicalize true "." = Regex.canonicalize true c <-> c = "."%char.
Proof.
  split; [|now intros ->].
  destruct c as [[] [] [] [] [] [] [] []]; intros H; try reflexivity; discriminate H.
Qed.

(** The pattern, read as a predicate on the rest of the name from the
    position where it is tried. *)
Lemma matcher_image_pattern suf :
  Regex.matcher true image_pattern suf (fun _ => true) = true <->
  exists ext, suf = String "." ext /\ lowercase ext ∈ image_extensions.
Proof.
  unfold image_pattern.
  change (Regex.matcher true (Regex.Seq (Regex.Chr ".") ?r) suf ?k)
    with (Regex.matcher true (Regex.Chr ".") suf (fun rest => Regex.matcher true r rest k)).
  destruct suf as [|c suf]; cbn [Regex.matcher].
  { split; [discriminate|]. intros (? & ? & _). discriminate. }
  destruct (Ascii.eqb_spec (Regex.canonicalize true ".") (Regex.canonicalize true c)) as [Hc|Hc].
  2:{ split; [discriminate|]. intros (ext & [= -> _] & _). now exfalso. }
  apply canonicalize_dot in Hc as ->.
  rewrite !orb_true_iff, !matcher_word.
  assert (Hend : forall w, (exists w' rest : string, suf = (w' ++ rest)%string /\
              lowercase w' = lowercase w /\
              match rest with EmptyString => true | String _ _ => false end = true)
            <-> lowercase suf = lowercase w).
  { intros w. split.
    - intros (w' & rest & -> & Hw & Hr). destruct rest; [|discriminate].
      rewrite <- Hw. f_equal. clear. induction w'; string_app; congruence.
    - intros H. exists suf, EmptyString. repeat split; auto.
      clear. induction suf; string_app; congruence. }
  rewrite !Hend. unfold image_extensions.
  change (lowercase "jpg") with "jpg"; change (lowercase "jpeg") with "jpeg".
  change (lowercase "png") with "png"; change (lowercase "gif") with "gif".
  split.
  - intros H. exists suf. split; [reflexivity|].
    rewrite !elem_of_cons. tauto.
  - intros (ext & [= <-] & H). rewrite !elem_of_cons, elem_of_nil in H. tauto.
Qed.

(** The filter of the scanner keeps a name exactly when the name has one
    of the four extensions, in any mix of cases. *)
Lemma is_image_file_iff name :
  is_image_file name = true <-> has_image_extension name.
Proof.
  unfold is_image_file, has_image_extension. rewrite test_iff. split.
  - intros (pre & suf & -> & H). apply matcher_image_pattern in H as (ext & -> & H).
    exists pre, ext. auto.
  - intros (stem & ext & -> & H). exists stem, (String "." ext). split; [reflexivity|].
    apply matcher_image_pattern. eauto.
Qed.

(** ** Running the program *)

Ltac run :=
  cbv beta iota zeta delta
    [ensureDirectoryExists loadImageFiles_try loadImageFiles movePostedImage
     postImageToFediverse_try postImageToFediverse select_path postNextImage_selected
     postNextImage interfere
     bind try_catch ret throw emit get set_imageFiles set_currentIndex set_fs log
     fs_access fs_mkdir fs_readdir fs_readFile fs_rename axios_post get_property
     path_join basename dirname imageFiles currentIndex fs initial
     rename_succeeds read_succeeds is_resolved
     state_of events_of result_of fst snd]; cbn [app].

Ltac step :=
  match goal with
  | H : ?t = _ |- context [match ?t with _ => _ end] => rewrite H
  | |- context [match ?x with _ => _ end] => is_var x; destruct x
  | |- context [match ?m !! ?k with _ => _ end] => destruct (m !! k) eqn:?
  | |- context [match decide ?P with _ => _ end] => destruct (decide P)
  | |- context [match fs_lookup ?a ?b with _ => _ end] => destruct (fs_lookup a b) eqn:?
  | |- context [match js_index ?a ?b with _ => _ end] => destruct (js_index a b) eqn:?
  | |- context [match response ?a with _ => _ end] => destruct (response a) eqn:?
  | |- context [match property ?a ?b with _ => _ end] => destruct (property a b) eqn:?
  | |- context [match ?g ?x with _ => _ end] => is_var x; destruct (g x) eqn:?
  end; run.

Ltac observe :=
  unfold requests, status_requests, renames, selections, scans, skips, logged in *;
  cbn; rewrite ?omap_app;
  repeat match goal with H : omap _ _ = _ |- _ => rewrite !H end;
  cbn.

Lemma bind_run {A B} (m : M A) (f : A -> M B) s r s1 t1 :
  m s = (r, s1, t1) ->
  bind m f s =
    match r with
    | Ret a => let '(r2, s2, t2) := f a s1 in (r2, s2, t1 ++ t2)
    | Throw e => (Throw e, s1, t1)
    end.
Proof. intros H. unfold bind. rewrite H. reflexivity. Qed.

Lemma try_catch_run {A} (m : M A) (h : error -> M A) s r s1 t1 :
  m s = (r, s1, t1) ->
  try_catch m h s =
    match r with
    | Ret a => (Ret a, s1, t1)
    | Throw e => let '(r2, s2, t2) := h e s1 in (r2, s2, t1 ++ t2)
    end.
Proof. intros H. unfold try_catch. rewrite H. reflexivity. Qed.

Lemma ensure_spec fa fm d q i f :
  exists r f' evs,
    ensureDirectoryExists fa fm d (State q i f) = (r, State q i f', evs) /\
    mkdirs d f f' /\
    (r = Ret tt -> is_Some (f' !! d)) /\
    requests evs = [] /\ renames evs = [] /\ selections evs = [] /\
    scans evs = [] /\ skips evs = [].
Proof.
  unfold mkdirs. run. repeat step.
  all: do 3 eexists; (split; [reflexivity|]); repeat split; auto; try discriminate.
  all: try (rewrite lookup_insert_eq; eauto).
  all: eauto.
Qed.

Lemma load_try_spec cfg e q i f :
  exists r q' f' evs,
    loadImageFiles_try cfg e (State q i f) = (r, State q' i f', evs) /\
    match r with
    | Ret _ => exists d, f' !! imageFolder cfg = Some d /\
                         q' = List.filter is_image_file (dir_names d)
    | Throw _ => q' = q
    end /\
    (exists f1, mkdirs (imageFolder cfg) f f1 /\ mkdirs (postedFolder cfg) f1 f') /\
    requests evs = [] /\ renames evs = [] /\ selections evs = [] /\
    scans evs = [tt] /\ skips evs = [].
Proof.
  unfold loadImageFiles_try.
  destruct (ensure_spec (access_images e) (mkdir_images e) (imageFolder cfg) q i f)
    as (r1 & f1 & ev1 & E1 & M1 & S1 & Q1 & Q2 & Q3 & Q4 & Q5).
  destruct (ensure_spec (access_posted e) (mkdir_posted e) (postedFolder cfg) q i f1)
    as (r2 & f2 & ev2 & E2 & M2 & S2 & P1 & P2 & P3 & P4 & P5).
  erewrite bind_run by reflexivity. cbv beta iota.
  erewrite bind_run by exact E1.
  destruct r1 as [[]|err].
  2:{ exists (Throw err), q, f1. eexists. split; [reflexivity|].
      split; [reflexivity|]. split; [exists f1; split; [auto|left; auto]|].
      observe. auto. }
  erewrite bind_run by exact E2.
  destruct r2 as [[]|err].
  2:{ exists (Throw err), q, f2. eexists. split; [reflexivity|].
      split; [reflexivity|]. split; [eauto|]. observe. auto. }
  run. repeat step.
  all: do 4 eexists; (split; [reflexivity|]).
  all: (split; [eauto|]); (split; [eauto|]).
  all: observe; auto.
Qed.

Lemma load_spec cfg e q i f :
  exists q' f' evs,
    loadImageFiles cfg e (State q i f) = (Ret tt, State q' i f', evs) /\
    state_of (loadImageFiles_try cfg e (State q i f)) = State q' i f' /\
    match result_of (loadImageFiles_try cfg e (State q i f)) with
    | Ret _ => exists d, f' !! imageFolder cfg = Some d /\
                         q' = List.filter is_image_file (dir_names d)
    | Throw err => q' = q /\ (LError, MsgErrorReadingFolder (message err)) ∈ logged evs
    end /\
    (exists f1, mkdirs (imageFolder cfg) f f1 /\ mkdirs (postedFolder cfg) f1 f') /\
    requests evs = [] /\ renames evs = [] /\ selections evs = [] /\
    scans evs = [tt] /\ skips evs = [].
Proof.
  destruct (load_try_spec cfg e q i f)
    as (r & q' & f' & evs & E & Hr & Hm & Q1 & Q2 & Q3 & Q4 & Q5).
  unfold loadImageFiles. erewrite try_catch_run by exact E. rewrite E.
  destruct r as [[]|err]; run.
  - exists q', f', evs. repeat split; auto.
  - exists q', f'. eexists. split; [reflexivity|]. split; [reflexivity|].
    split; [split; [exact Hr|]|].
    + unfold logged. rewrite omap_app. apply elem_of_app. right. cbn. left.
    + split; [exact Hm|]. observe. auto.
Qed.

Lemma post_spec cfg e p q i f :
  exists f' evs,
    postImageToFediverse cfg e p (State q i f) = (Ret tt, State q i f', evs) /\
    selections evs = [] /\ scans evs = [] /\ skips evs = [].
Proof.
  run. repeat step.
  all: do 2 eexists; (split; [reflexivity|]); auto.
Qed.

Ltac run_top :=
  cbv beta iota zeta delta
    [select_path postNextImage_selected postNextImage interfere
     bind try_catch ret throw emit get set_imageFiles set_currentIndex set_fs log
     imageFiles currentIndex fs state_of events_of result_of fst snd]; cbn [app].

Lemma selected_run cfg e q i f file f' evs :
  js_index q i = Some file ->
  postImageToFediverse cfg e (path_join (imageFolder cfg) file) (State q i f)
    = (Ret tt, State q i f', evs) ->
  postNextImage_selected cfg e (State q i f) =
    (Ret tt, State (splice1 q i) (next_index (splice1 q i) i) f',
     EvLog LInfo (MsgSelected (path_join (imageFolder cfg) file)) :: evs ++
     [EvLog LInfo (MsgUpdatedIndex (next_index (splice1 q i) i) (length (splice1 q i)))]).
Proof.
  intros Hsel Hpost. unfold next_index. run_top. rewrite Hsel. run_top.
  rewrite Hpost. run_top. destruct (decide (length (splice1 q i) = 0%nat)); run_top.
  all: rewrite ?app_nil_r; reflexivity.
Qed.

Lemma selected_throws cfg e q i f :
  js_index q i = None ->
  exists err, postNextImage_selected cfg e (State q i f) = (Throw err, State q i f, []).
Proof. intros H. run_top. rewrite H. run_top. eauto. Qed.

Lemma cycle_nonempty cfg e q i f :
  q <> [] ->
  postNextImage cfg e (State q i f) =
    let '(r, s, t) := postNextImage_selected cfg e (State q i f) in
    (r, s, EvLog LInfo MsgPreparing :: t).
Proof.
  intros H. unfold postNextImage. erewrite bind_run by reflexivity. cbv beta iota.
  erewrite bind_run by reflexivity. cbv beta iota. cbn [imageFiles].
  destruct (decide (length q = 0%nat)) as [E|_].
  - destruct q; [congruence | discriminate].
  - destruct (postNextImage_selected cfg e _) as [[r s] t]. reflexivity.
Qed.

Lemma cycle_empty cfg e i f q' f' evs :
  loadImageFiles cfg e (State [] i f) = (Ret tt, State q' i f', evs) ->
  postNextImage cfg e (State [] i f) =
    match q' with
    | [] => (Ret tt, State [] i f',
             EvLog LInfo MsgPreparing :: EvLog LInfo MsgNoImages :: evs ++ [EvLog LWarn MsgSkipping])
    | _ :: _ =>
        let '(r, s, t) := postNextImage_selected cfg e (State q' i f') in
        (r, s, EvLog LInfo MsgPreparing :: EvLog LInfo MsgNoImages :: evs ++ t)
    end.
Proof.
  intros H. unfold postNextImage. erewrite bind_run by reflexivity. cbv beta iota.
  erewrite bind_run by reflexivity. cbv beta iota. cbn [imageFiles length].
  destruct (decide (0%nat = 0%nat)) as [_|]; [|congruence].
  erewrite bind_run by reflexivity. cbv beta iota.
  erewrite bind_run by exact H. cbv beta iota.
  erewrite bind_run by reflexivity. cbv beta iota. cbn [imageFiles].
  destruct q' as [|x q'].
  - cbn. reflexivity.
  - cbn [length]. destruct (decide (S (length q') = 0%nat)); [discriminate|].
    destruct (postNextImage_selected cfg e _) as [[r s] t]. cbn. reflexivity.
Qed.

Lemma splice1_in_range {A} (q : list A) i :
  0 <= i < Z.of_nat (length q) -> splice1 q i = delete (Z.to_nat i) q.
Proof.
  intros H. unfold splice1. destruct (Z.ltb_spec i 0); [lia|].
  rewrite Z.min_l by lia. reflexivity.
Qed.

Lemma js_index_in_range {A} (q : list A) i :
  0 <= i < Z.of_nat (length q) -> exists x, js_index q i = Some x /\ q !! Z.to_nat i = Some x.
Proof.
  intros H. unfold js_index. destruct (Z.leb_spec 0 i); [|lia].
  destruct (lookup_lt_is_Some_2 q (Z.to_nat i)) as [x Hx]; [lia|]. eauto.
Qed.

Lemma next_index_in_range (q' : list string) i :
  0 <= i ->
  (q' = [] /\ next_index q' i = 0) \/ (0 <= next_index q' i < Z.of_nat (length q')).
Proof.
  intros H. unfold next_index. destruct (decide (length q' = 0%nat)) as [E|E].
  - left. split; [|reflexivity]. destruct q'; [reflexivity | discriminate].
  - right. apply Z.rem_bound_pos; lia.
Qed.

Lemma selected_in_range cfg e q i f :
  0 <= i < Z.of_nat (length q) ->
  exists file f' evs,
    q !! Z.to_nat i = Some file /\
    postImageToFediverse cfg e (path_join (imageFolder cfg) file) (State q i f)
      = (Ret tt, State q i f', evs) /\
    selections evs = [] /\ scans evs = [] /\ skips evs = [] /\
    postNextImage_selected cfg e (State q i f) =
      (Ret tt, State (delete (Z.to_nat i) q) (next_index (delete (Z.to_nat i) q) i) f',
       EvLog LInfo (MsgSelected (path_join (imageFolder cfg) file)) :: evs ++
       [EvLog LInfo (MsgUpdatedIndex (next_index (delete (Z.to_nat i) q) i)
                       (length (delete (Z.to_nat i) q)))]).
Proof.
  intros Hi. destruct (js_index_in_range q i Hi) as (file & Hjs & Hl).
  destruct (post_spec cfg e (path_join (imageFolder cfg) file) q i f)
    as (f' & evs & Hp & Q1 & Q2 & Q3).
  exists file, f', evs. repeat split; auto.
  rewrite <- (splice1_in_range q i Hi). now apply selected_run.
Qed.

(** A cycle that starts with a non-empty queue and a cursor within it
    selects exactly one file name, the one at the cursor, and ends with
    that entry deleted from the queue by its index. *)
Lemma cycle_at_cursor cfg e s :
  imageFiles s <> [] -> cursor_in_range s ->
  exists file,
    imageFiles s !! Z.to_nat (currentIndex s) = Some file /\
    result_of (postNextImage cfg e s) = Ret tt /\
    selections (events_of (postNextImage cfg e s)) = [path_join (imageFolder cfg) file] /\
    imageFiles (state_of (postNextImage cfg e s))
      = delete (Z.to_nat (currentIndex s)) (imageFiles s).
Proof.
  destruct s as [q i f]. unfold cursor_in_range. cbn [imageFiles currentIndex].
  intros Hne [[Hq _]|Hi]; [congruence|].
  destruct (selected_in_range cfg e q i f Hi) as (file & f' & evs & Hl & _ & Q1 & _ & _ & Hs).
  exists file. rewrite (cycle_nonempty cfg e q i f Hne), Hs. cbn.
  repeat split; auto. unfold selections in *. cbn. rewrite omap_app, Q1. reflexivity.
Qed.

Lemma postNextImage_invariant cfg e s :
  cursor_in_range s ->
  result_of (postNextImage cfg e s) = Ret tt /\
  cursor_in_range (state_of (postNextImage cfg e s)).
Proof.
  destruct s as [q i f]. unfold cursor_in_range. cbn [imageFiles currentIndex].
  intros [[-> ->]|Hi].
  - destruct (load_spec cfg e [] 0 f) as (q' & f' & evs & Hl & _).
    rewrite (cycle_empty cfg e 0 f q' f' evs Hl). destruct q' as [|x q'].
    + cbn. auto.
    + destruct (selected_in_range cfg e (x :: q') 0 f') as (file & f2 & ev2 & _ & _ & _ & _ & _ & Hs).
      { cbn [length]. lia. }
      rewrite Hs. cbn [result_of state_of fst snd imageFiles currentIndex].
      split; [reflexivity|]. apply next_index_in_range. lia.
  - assert (Hne : q <> []) by (destruct q; [cbn in Hi; lia | discriminate]).
    destruct (selected_in_range cfg e q i f Hi) as (file & f2 & ev2 & _ & _ & _ & _ & _ & Hs).
    rewrite (cycle_nonempty cfg e q i f Hne), Hs.
    cbn [result_of state_of fst snd imageFiles currentIndex].
    split; [reflexivity|]. apply next_index_in_range. lia.
Qed.

Lemma interfere_run w q i f :
  exists f', interfere w (State q i f) = (Ret tt, State q i f', []).
Proof. destruct w; cbn; eauto. Qed.

Lemma cycles_invariant cfg ts s :
  cursor_in_range s ->
  result_of (cycles cfg ts s) = Ret tt /\ cursor_in_range (state_of (cycles cfg ts s)).
Proof.
  revert s. induction ts as [|t ts IH]; intros s Hs.
  - cbn. auto.
  - cbn [cycles]. destruct s as [q i f].
    destruct (interfere_run (world t) q i f) as (f' & Hi).
    erewrite bind_run by exact Hi. cbv beta iota.
    assert (Hs' : cursor_in_range (State q i f')) by exact Hs.
    destruct (postNextImage_invariant cfg (answers t) _ Hs') as [Hr Hc].
    destruct (postNextImage cfg (answers t) _) as [[r s1] t1] eqn:Hp.
    cbn in Hr, Hc. subst r.
    erewrite bind_run by exact Hp. cbv beta iota.
    destruct (IH s1 Hc) as [Hr2 Hc2].
    destruct (cycles cfg ts s1) as [[r2 s2] t2]. cbn in *. auto.
Qed.

(** ** Invariants of a run of [start] *)

(** A property of the two program variables that the scanner establishes
    from the initial state and every cycle keeps holds after [start],
    however long the timer runs; and no cycle throws. *)
Lemma start_invariant cfg (P : list string -> Z -> Prop) fs0 e0 ts :
  (forall f, P (imageFiles (state_of (loadImageFiles cfg e0 (initial f))))
               (currentIndex (state_of (loadImageFiles cfg e0 (initial f))))) ->
  (forall e s, P (imageFiles s) (currentIndex s) ->
     result_of (postNextImage cfg e s) = Ret tt /\
     P (imageFiles (state_of (postNextImage cfg e s)))
       (currentIndex (state_of (postNextImage cfg e s)))) ->
  result_of (start cfg e0 ts (initial fs0)) = Ret tt /\
  P (imageFiles (state_of (start cfg e0 ts (initial fs0))))
    (currentIndex (state_of (start cfg e0 ts (initial fs0)))).
Proof.
  intros Hload Hcycle.
  assert (Hcycles : forall ts s, P (imageFiles s) (currentIndex s) ->
            result_of (cycles cfg ts s) = Ret tt /\
            P (imageFiles (state_of (cycles cfg ts s)))
              (currentIndex (state_of (cycles cfg ts s)))).
  { clear ts. induction ts as [|t ts IH]; intros s Hs; [cbn; auto|].
    cbn [cycles]. destruct s as [q i f].
    destruct (interfere_run (world t) q i f) as (f' & Hi).
    erewrite bind_run by exact Hi. cbv beta iota.
    destruct (Hcycle (answers t) (State q i f') Hs) as [Hr Hc].
    destruct (postNextImage cfg (answers t) _) as [[r s1] t1] eqn:Hp.
    cbn in Hr, Hc. subst r.
    erewrite bind_run by exact Hp. cbv beta iota.
    destruct (IH s1 Hc) as [Hr2 Hc2].
    destruct (cycles cfg ts s1) as [[r2 s2] t2]. cbn in *. auto. }
  unfold start.
  erewrite bind_run by reflexivity. cbv beta iota.
  erewrite bind_run by reflexivity. cbv beta iota.
  specialize (Hload fs0).
  destruct (load_spec cfg e0 [] 0 fs0) as (q' & f' & evs & Hl & _).
  change (State [] 0 fs0) with (initial fs0) in Hl. rewrite Hl in Hload. cbn in Hload.
  erewrite bind_run by exact Hl. cbv beta iota.
  erewrite bind_run by reflexivity. cbv beta iota.
  destruct ts as [|t ts]; [cbn; auto|].
  destruct (interfere_run (world t) q' 0 f') as (f2 & Hi).
  erewrite bind_run by exact Hi. cbv beta iota.
  destruct (Hcycle (answers t) (State q' 0 f2) Hload) as [Hr Hc].
  destruct (postNextImage cfg (answers t) _) as [[r s1] t1] eqn:Hp.
  cbn in Hr, Hc. subst r.
  erewrite bind_run by exact Hp. cbv beta iota.
  erewrite bind_run by reflexivity. cbv beta iota.
  destruct (Hcycles ts s1 Hc) as [Hr2 Hc2].
  destruct (cycles cfg ts s1) as [[r2 s2] t2]. cbn in *. auto.
Qed.

(** C3.  From the start of the program and after any number of cycles,
    whatever the file system holds and the environment answers: no cycle
    has thrown, and either the queue is empty and the cursor is 0, or the
    cursor is an index of the queue. *)
Theorem cursor_invariant cfg fs0 e0 ts :
  result_of (start cfg e0 ts (initial fs0)) = Ret tt /\
  cursor_in_range (state_of (start cfg e0 ts (initial fs0))).
Proof.
  apply (start_invariant cfg
           (fun q i => cursor_in_range (State q i ∅)) fs0 e0 ts).
  - intros f. destruct (load_spec cfg e0 [] 0 f) as (q' & f' & evs & Hl & _).
    change (State [] 0 f) with (initial f) in Hl. rewrite Hl. cbn.
    unfold cursor_in_range. cbn. destruct q'; [left; auto | right; cbn; lia].
  - intros e [q i f] H. apply (postNextImage_invariant cfg e (State q i f)) in H as H'.
    exact H'.
Qed.

Lemma next_index_zero q' : next_index q' 0 = 0.
Proof. unfold next_index. destruct (decide _); [reflexivity | apply Z.rem_0_l; lia]. Qed.

Lemma filter_all_images files :
  Forall (fun file => is_image_file file = true) (List.filter is_image_file files).
Proof. apply Forall_forall. intros x Hx. apply list_elem_of_In, filter_In in Hx. tauto. Qed.

(** What every state of a run satisfies: the cursor is 0, and the queue
    holds names that passed the filter of the scanner. *)
Lemma postNextImage_scanned_queue cfg e s :
  currentIndex s = 0 /\ Forall (fun file => is_image_file file = true) (imageFiles s) ->
  result_of (postNextImage cfg e s) = Ret tt /\
  currentIndex (state_of (postNextImage cfg e s)) = 0 /\
  Forall (fun file => is_image_file file = true) (imageFiles (state_of (postNextImage cfg e s))).
Proof.
  destruct s as [q i f]. cbn [imageFiles currentIndex]. intros [-> Hq].
  assert (Hsel : forall q f, q <> [] ->
            Forall (fun file => is_image_file file = true) q ->
            let out := postNextImage_selected cfg e (State q 0 f) in
            result_of out = Ret tt /\ currentIndex (state_of out) = 0 /\
            Forall (fun file => is_image_file file = true) (imageFiles (state_of out))).
  { clear. intros q f Hne Hq.
    destruct (selected_in_range cfg e q 0 f) as (file & f2 & ev2 & _ & _ & _ & _ & _ & Hs).
    { destruct q; [congruence | cbn [length]; lia]. }
    cbv zeta. rewrite Hs. cbn [result_of state_of fst snd imageFiles currentIndex].
    split; [reflexivity|]. split; [apply next_index_zero|]. now apply Forall_delete. }
  destruct q as [|x q].
  - destruct (load_spec cfg e [] 0 f) as (q' & f' & evs & Hl & _ & Hr & _).
    rewrite (cycle_empty cfg e 0 f q' f' evs Hl). destruct q' as [|y q']; [cbn; auto|].
    assert (Hq' : Forall (fun file => is_image_file file = true) (y :: q')).
    { destruct (result_of _); [|destruct Hr; discriminate].
      destruct Hr as (d & _ & ->). apply filter_all_images. }
    destruct (Hsel (y :: q') f' ltac:(discriminate) Hq') as (H1 & H2 & H3).
    destruct (postNextImage_selected cfg e _) as [[r s1] t1]. cbn in *. auto.
  - rewrite (cycle_nonempty cfg e (x :: q) 0 f ltac:(discriminate)).
    destruct (Hsel (x :: q) f ltac:(discriminate) Hq) as (H1 & H2 & H3).
    destruct (postNextImage_selected cfg e _) as [[r s1] t1]. cbn in *. auto.
Qed.

Lemma start_scanned_queue cfg fs0 e0 ts :
  currentIndex (state_of (start cfg e0 ts (initial fs0))) = 0 /\
  Forall (fun file => is_image_file file = true)
    (imageFiles (state_of (start cfg e0 ts (initial fs0)))).
Proof.
  apply (start_invariant cfg
           (fun q i => i = 0 /\ Forall (fun file => is_image_file file = true) q) fs0 e0 ts).
  - intros f. destruct (load_spec cfg e0 [] 0 f) as (q' & f' & evs & Hl & _ & Hr & _).
    change (State [] 0 f) with (initial f) in *. rewrite Hl. cbn. split; [reflexivity|].
    destruct (result_of _).
    + destruct Hr as (d & _ & ->). apply filter_all_images.
    + destruct Hr as [-> _]. constructor.
  - intros e s [H1 H2]. destruct (postNextImage_scanned_queue cfg e s) as (? & ? & ?); auto.
Qed.

Lemma between_cycles_scanned cfg fs0 e0 ts f :
  currentIndex (between_cycles cfg fs0 e0 ts f) = 0 /\
  Forall (fun file => is_image_file file = true)
    (imageFiles (between_cycles cfg fs0 e0 ts f)).
Proof. apply start_scanned_queue. Qed.

Lemma between_cycles_in_range cfg fs0 e0 ts f :
  cursor_in_range (between_cycles cfg fs0 e0 ts f).
Proof.
  destruct (between_cycles_scanned cfg fs0 e0 ts f) as [Hi _].
  unfold cursor_in_range. rewrite Hi.
  destruct (imageFiles _); [left; auto | right; cbn [length]; lia].
Qed.

(** C1.  Every cycle of a run that starts with a non-empty queue selects
    exactly one file name, the one at the cursor, and ends with that
    entry deleted from the queue by its index, whatever the environment
    answers to the publish attempt. *)
Theorem cycle_selects_and_removes cfg fs0 e0 ts f e :
  let s := between_cycles cfg fs0 e0 ts f in
  imageFiles s <> [] ->
  exists file,
    imageFiles s !! Z.to_nat (currentIndex s) = Some file /\
    result_of (postNextImage cfg e s) = Ret tt /\
    selections (events_of (postNextImage cfg e s)) = [path_join (imageFolder cfg) file] /\
    imageFiles (state_of (postNextImage cfg e s))
      = delete (Z.to_nat (currentIndex s)) (imageFiles s).
Proof.
  intros s Hne. apply cycle_at_cursor; [exact Hne|]. apply between_cycles_in_range.
Qed.

(** ** The scanner *)

Lemma mkdirs_source_entries cfg d f f' :
  mkdirs d f f' -> source_entries cfg f' = source_entries cfg f.
Proof.
  unfold source_entries. intros [->|[Hd ->]]; [reflexivity|].
  destruct (decide (d = imageFolder cfg)) as [->|Hne].
  - rewrite lookup_insert_eq, Hd. reflexivity.
  - rewrite lookup_insert_ne by exact Hne. reflexivity.
Qed.

(** A scan that goes through leaves in the queue the filtered names of
    the source directory as it was found (created empty when missing),
    and leaves the cursor alone. *)
Lemma scan_result cfg e s :
  result_of (loadImageFiles_try cfg e s) = Ret tt ->
  loadImageFiles cfg e s = loadImageFiles_try cfg e s /\
  imageFiles (state_of (loadImageFiles cfg e s))
    = List.filter is_image_file (dir_names (source_entries cfg (fs s))) /\
  currentIndex (state_of (loadImageFiles cfg e s)) = currentIndex s /\
  source_entries cfg (fs (state_of (loadImageFiles cfg e s))) = source_entries cfg (fs s).
Proof.
  destruct s as [q i f]. intros Hret.
  destruct (load_spec cfg e q i f) as (q' & f' & evs & Hl & Hs & Hr & (f1 & M1 & M2) & _).
  rewrite Hret in Hr. destruct Hr as (d & Hd & ->).
  assert (Hso : source_entries cfg f' = source_entries cfg f).
  { rewrite (mkdirs_source_entries cfg _ _ _ M2). apply (mkdirs_source_entries cfg _ _ _ M1). }
  assert (Hd' : d = source_entries cfg f).
  { rewrite <- Hso. unfold source_entries. rewrite Hd. reflexivity. }
  split.
  - unfold loadImageFiles, try_catch.
    destruct (loadImageFiles_try cfg e _) as [[r s1] t1]. cbn in Hret. subst r. reflexivity.
  - rewrite Hl. cbn. subst d. auto.
Qed.


(** C2, as amended.  After a scan that goes through, the queue is the
    listing of the source directory filtered by name, in listing order:
    an entry, file or folder, is kept exactly when its name ends in a
    dot and one of jpg, jpeg, png, gif in any mix of cases.  The kind of
    the entry is not looked at: a subdirectory is dropped only when its
    name does not end so. *)
Theorem scan_keeps_exactly_image_names cfg e s :
  result_of (loadImageFiles_try cfg e s) = Ret tt ->
  imageFiles (state_of (loadImageFiles cfg e s))
    = List.filter is_image_file (dir_names (source_entries cfg (fs s))) /\
  forall name,
    name ∈ imageFiles (state_of (loadImageFiles cfg e s)) <->
    (exists kind, (name, kind) ∈ source_entries cfg (fs s)) /\ has_image_extension name.
Proof.
  intros Hret. destruct (scan_result cfg e s Hret) as (_ & Hq & _).
  split; [exact Hq|]. intros name. rewrite Hq, list_elem_of_In, filter_In.
  rewrite is_image_file_iff, <- list_elem_of_In. unfold dir_names.
  rewrite list_elem_of_fmap. split; intros [H1 H2]; (split; [|exact H2]).
  - destruct H1 as ([n k] & -> & Hin). exists k. exact Hin.
  - destruct H1 as (k & Hin). exists (name, k). auto.
Qed.

(** The failures the scanner can meet. *)
Lemma access_failure_throws cfg e s err :
  access_images e = Some err -> code err <> Some "ENOENT" ->
  result_of (loadImageFiles_try cfg e s) = Throw err.
Proof.
  intros H Hc. destruct s as [q i f]. run. rewrite H. run.
  destruct (decide _); [contradiction | reflexivity].
Qed.

Lemma mkdir_failure_throws cfg e s err :
  access_images e = None -> fs s !! imageFolder cfg = None ->
  mkdir_images e = Some err ->
  result_of (loadImageFiles_try cfg e s) = Throw err.
Proof.
  intros H Hd Hm. destruct s as [q i f]. cbn [fs] in Hd. run. rewrite H. run.
  rewrite Hd. run. rewrite Hm. reflexivity.
Qed.

Lemma readdir_failure_throws cfg e s err :
  readdir_images e = Some err ->
  exists err', result_of (loadImageFiles_try cfg e s) = Throw err'.
Proof.
  intros H. destruct s as [q i f]. run. rewrite H. repeat step; eauto.
Qed.

(** C10.  When a file system call makes the [try] block of the scanner
    throw, the error is logged, [loadImageFiles] itself returns normally,
    and the queue and the cursor are what they were before the call. *)
Theorem scan_error_is_contained cfg e s err :
  result_of (loadImageFiles_try cfg e s) = Throw err ->
  result_of (loadImageFiles cfg e s) = Ret tt /\
  imageFiles (state_of (loadImageFiles cfg e s)) = imageFiles s /\
  currentIndex (state_of (loadImageFiles cfg e s)) = currentIndex s /\
  (LError, MsgErrorReadingFolder (message err)) ∈ logged (events_of (loadImageFiles cfg e s)).
Proof.
  destruct s as [q i f]. intros Hthrow.
  destruct (load_spec cfg e q i f) as (q' & f' & evs & Hl & _ & Hr & _).
  rewrite Hthrow in Hr. destruct Hr as [-> Hlog]. rewrite Hl. cbn. auto.
Qed.

(** ** The publisher *)

(** C6.  When reading the file fails, the attempt consists of the
    announcement, the failed read and the error message: nothing is sent,
    nothing is moved, the state is untouched, and the function returns. *)
Theorem read_failure_aborts cfg e p s :
  read_succeeds (readFile_image e) (fs s) p = false ->
  exists msg,
    postImageToFediverse cfg e p s =
      (Ret tt, s, [EvLog LInfo (MsgAttempting p); EvReadFile p;
                   EvLog LError (MsgErrorReadingFile p msg)]) /\
    requests (events_of (postImageToFediverse cfg e p s)) = [] /\
    renames (events_of (postImageToFediverse cfg e p s)) = [].
Proof.
  destruct s as [q i f]. intros H. revert H. run.
  destruct (readFile_image e) as [err|]; run.
  - intros _. eexists. repeat split; reflexivity.
  - destruct (fs_lookup f p) as [[c|]|]; run; intros H; try discriminate H.
    all: eexists; repeat split; reflexivity.
Qed.

Lemma dir_lookup_put n x d : dir_lookup n (dir_put n x d) = Some x.
Proof.
  induction d as [|[m y] d IH]; cbn.
  - now rewrite String.eqb_refl.
  - destruct (String.eqb m n) eqn:E; cbn; rewrite E; auto.
Qed.

Lemma dir_lookup_remove n d : dir_lookup n (dir_remove n d) = None.
Proof.
  induction d as [|[m y] d IH]; cbn; [reflexivity|].
  destruct (String.eqb m n) eqn:E; cbn; rewrite ?E; auto.
Qed.

Lemma dir_lookup_names n d x : dir_lookup n d = Some x -> n ∈ dir_names d.
Proof.
  induction d as [|[m y] d IH]; cbn; [discriminate|].
  destruct (String.eqb_spec m n) as [->|_]; intros H.
  - left.
  - right. now apply IH.
Qed.

(** After a move the entry is found at its destination ... *)
Lemma fs_lookup_moved_dst (f : filesystem) src dst x d :
  f !! dirname dst = Some d ->
  fs_lookup (alter (dir_put (basename dst) x) (dirname dst)
               (alter (dir_remove (basename src)) (dirname src) f)) dst = Some x.
Proof.
  intros Hd. unfold fs_lookup. rewrite lookup_alter_eq.
  destruct (decide (dirname src = dirname dst)) as [E|E].
  - rewrite E, lookup_alter_eq, Hd. cbn. apply dir_lookup_put.
  - rewrite lookup_alter_ne by exact E. rewrite Hd. cbn. apply dir_lookup_put.
Qed.

(** ... and no longer where it was, when the two directories differ. *)
Lemma fs_lookup_moved_src (f : filesystem) src dst x :
  dirname src <> dirname dst ->
  fs_lookup (alter (dir_put (basename dst) x) (dirname dst)
               (alter (dir_remove (basename src)) (dirname src) f)) src = None.
Proof.
  intros Hd. unfold fs_lookup. rewrite lookup_alter_ne by congruence.
  rewrite lookup_alter_eq.
  destruct (f !! dirname src); cbn; [apply dir_lookup_remove | reflexivity].
Qed.

(** C4, as amended.  The file is handed to the archiver (one call of
    [fs.rename], from its path to the same base name in the archive
    folder) exactly when both API calls succeed; otherwise nothing is
    moved.  Where the rename goes through, the file is found in the
    archive folder under its base name with its content and, the archive
    folder being another one than its own, no longer at its path; where
    the rename fails, the file system is unchanged. *)
Theorem archive_after_successful_post cfg e p s :
  (both_calls_succeed e (events_of (postImageToFediverse cfg e p s)) <->
   renames (events_of (postImageToFediverse cfg e p s))
     = [(p, path_join (postedFolder cfg) (basename p))]) /\
  (~ both_calls_succeed e (events_of (postImageToFediverse cfg e p s)) ->
   renames (events_of (postImageToFediverse cfg e p s)) = [] /\
   fs (state_of (postImageToFediverse cfg e p s)) = fs s) /\
  (both_calls_succeed e (events_of (postImageToFediverse cfg e p s)) ->
   exists content,
     fs_lookup (fs s) p = Some (File content) /\
     if rename_succeeds (rename_image e) (fs s) p (path_join (postedFolder cfg) (basename p))
     then
       fs_lookup (fs (state_of (postImageToFediverse cfg e p s)))
         (path_join (postedFolder cfg) (basename p)) = Some (File content) /\
       (dirname p <> postedFolder cfg ->
        fs_lookup (fs (state_of (postImageToFediverse cfg e p s))) p = None)
     else fs (state_of (postImageToFediverse cfg e p s)) = fs s).
Proof.
  destruct s as [q i f], p as [d n]. unfold both_calls_succeed. run. repeat step.
  all: cbn.
  all: try solve [intuition (try discriminate; try congruence; try lia)].
  all: split; [tauto|]; split; [tauto|]; intros _; eexists; (split; [reflexivity|]).
  all: try reflexivity.
  all: split;
    [ eapply (fs_lookup_moved_dst f (Path d n) (Path (postedFolder cfg) n)); eassumption
    | intros Hne; apply (fs_lookup_moved_src f (Path d n) (Path (postedFolder cfg) n));
      exact Hne ].
Qed.


(** A successful post whose move fails: the error is logged and the file
    system is what it was. *)
Lemma post_failed_move cfg e p q i f :
  both_calls_succeed e (events_of (postImageToFediverse cfg e p (State q i f))) ->
  rename_succeeds (rename_image e) f p (path_join (postedFolder cfg) (basename p)) = false ->
  exists evs msg content,
    postImageToFediverse cfg e p (State q i f) = (Ret tt, State q i f, evs) /\
    (LError, MsgErrorMoving (basename p) msg) ∈ logged evs /\
    fs_lookup f p = Some (File content).
Proof.
  destruct p as [d n]. unfold both_calls_succeed. run. repeat step.
  all: cbn; intros (H1 & H2 & H3) Hmv;
       try discriminate H1; try discriminate H2; try discriminate H3; try discriminate Hmv.
  all: do 3 eexists; (split; [reflexivity|]); (split; [|reflexivity]).
  all: cbn; repeat (first [left | right]).
Qed.

(** A cycle at a valid cursor, on a name that passes the filter of the
    scanner, in which both API calls succeed and the move fails. *)
Lemma failed_move_at_cursor cfg e s file :
  0 <= currentIndex s ->
  imageFiles s !! Z.to_nat (currentIndex s) = Some file ->
  is_image_file file = true ->
  both_calls_succeed e (events_of (postNextImage cfg e s)) ->
  rename_succeeds (rename_image e) (fs s) (path_join (imageFolder cfg) file)
    (path_join (postedFolder cfg) file) = false ->
  (exists msg, (LError, MsgErrorMoving file msg) ∈ logged (events_of (postNextImage cfg e s))) /\
  fs (state_of (postNextImage cfg e s)) = fs s /\
  (exists content, fs_lookup (fs s) (path_join (imageFolder cfg) file) = Some (File content)) /\
  imageFiles (state_of (postNextImage cfg e s))
    = delete (Z.to_nat (currentIndex s)) (imageFiles s) /\
  forall e2 s2,
    fs s2 = fs (state_of (postNextImage cfg e s)) ->
    result_of (loadImageFiles_try cfg e2 s2) = Ret tt ->
    file ∈ imageFiles (state_of (loadImageFiles cfg e2 s2)).
Proof.
  destruct s as [q i f]. cbn [imageFiles currentIndex fs]. intros Hi Hl Himg.
  assert (Hr : 0 <= i < Z.of_nat (length q)).
  { apply lookup_lt_Some in Hl. lia. }
  assert (Hne : q <> []) by (intros ->; cbn in Hr; lia).
  assert (Hjs : js_index q i = Some file).
  { unfold js_index. destruct (Z.leb_spec 0 i); [exact Hl | lia]. }
  destruct (post_spec cfg e (path_join (imageFolder cfg) file) q i f)
    as (f' & evs & Hp & _).
  rewrite (cycle_nonempty cfg e q i f Hne).
  rewrite (selected_run cfg e q i f file f' evs Hjs Hp).
  cbn [events_of state_of fst snd fs imageFiles].
  intros Hboth Hmv.
  assert (Hboth' : both_calls_succeed e
            (events_of (postImageToFediverse cfg e (path_join (imageFolder cfg) file)
                          (State q i f)))).
  { rewrite Hp. revert Hboth. unfold both_calls_succeed, requests. cbn.
    rewrite omap_app. cbn. now rewrite app_nil_r. }
  destruct (post_failed_move cfg e (path_join (imageFolder cfg) file) q i f Hboth' Hmv)
    as (evs' & msg & content & Hp' & Hlog & Hfile).
  rewrite Hp in Hp'. injection Hp' as -> ->.
  split; [|split; [reflexivity|split; [eauto|split]]].
  - exists msg. unfold logged in *. cbn. rewrite omap_app.
    do 2 (apply elem_of_cons; right). apply elem_of_app. left. exact Hlog.
  - apply splice1_in_range. exact Hr.
  - intros e2 s2 Hfs Hret. destruct (scan_result cfg e2 s2 Hret) as (_ & -> & _).
    rewrite Hfs. apply list_elem_of_In, filter_In. split; [|exact Himg].
    apply list_elem_of_In. unfold fs_lookup in Hfile. cbn in Hfile.
    unfold source_entries. destruct (f !! imageFolder cfg) as [d|]; [|discriminate].
    cbn in *. eapply dir_lookup_names. exact Hfile.
Qed.

(** C8.  In a cycle of a run in which both API calls succeed and the
    move fails: the failure is logged; the file system is unchanged, so
    the file is still in the source directory; the entry is removed from
    the queue all the same; and any later scan of that file system that
    goes through puts the name in the queue again. *)
Theorem failed_move_leaves_file cfg fs0 e0 ts f e file :
  let s := between_cycles cfg fs0 e0 ts f in
  imageFiles s !! Z.to_nat (currentIndex s) = Some file ->
  both_calls_succeed e (events_of (postNextImage cfg e s)) ->
  rename_succeeds (rename_image e) f (path_join (imageFolder cfg) file)
    (path_join (postedFolder cfg) file) = false ->
  (exists msg, (LError, MsgErrorMoving file msg) ∈ logged (events_of (postNextImage cfg e s))) /\
  fs (state_of (postNextImage cfg e s)) = f /\
  (exists content, fs_lookup f (path_join (imageFolder cfg) file) = Some (File content)) /\
  imageFiles (state_of (postNextImage cfg e s))
    = delete (Z.to_nat (currentIndex s)) (imageFiles s) /\
  forall e2 s2,
    fs s2 = fs (state_of (postNextImage cfg e s)) ->
    result_of (loadImageFiles_try cfg e2 s2) = Ret tt ->
    file ∈ imageFiles (state_of (loadImageFiles cfg e2 s2)).
Proof.
  intros s Hl Hboth Hmv.
  destruct (between_cycles_scanned cfg fs0 e0 ts f) as [Hi Hq]. fold s in Hi, Hq.
  apply (failed_move_at_cursor cfg e s file); auto.
  - rewrite Hi. lia.
  - rewrite Forall_forall in Hq. apply Hq. eapply list_elem_of_lookup_2. exact Hl.
Qed.

(** ** The empty queue *)

Lemma selected_quiet cfg e q i f :
  scans (events_of (postNextImage_selected cfg e (State q i f))) = [] /\
  skips (events_of (postNextImage_selected cfg e (State q i f))) = [].
Proof.
  destruct (js_index q i) as [file|] eqn:Hjs.
  - destruct (post_spec cfg e (path_join (imageFolder cfg) file) q i f)
      as (f' & evs & Hp & Q1 & Q2 & Q3).
    rewrite (selected_run cfg e q i f file f' evs Hjs Hp).
    unfold scans, skips in *. cbn. rewrite !omap_app, Q2, Q3. auto.
  - destruct (selected_throws cfg e q i f Hjs) as (err & ->). auto.
Qed.

(** A cycle on an empty queue and an empty (or missing) source directory
    is a scan and a skip, whatever the environment answers. *)
Lemma empty_source_cycle cfg e i f :
  source_entries cfg f = [] ->
  exists f' evs,
    postNextImage cfg e (State [] i f) = (Ret tt, State [] i f', evs) /\
    source_entries cfg f' = [] /\
    selections evs = [] /\ requests evs = [] /\ renames evs = [] /\
    skips evs = [tt] /\ scans evs = [tt].
Proof.
  intros Hsrc.
  destruct (load_spec cfg e [] i f)
    as (q' & f' & evs & Hl & _ & Hr & (f1 & M1 & M2) & Q1 & Q2 & Q3 & Q4 & Q5).
  assert (Hso : source_entries cfg f' = []).
  { rewrite (mkdirs_source_entries cfg _ _ _ M2), (mkdirs_source_entries cfg _ _ _ M1).
    exact Hsrc. }
  assert (Hq : q' = []).
  { destruct (result_of _).
    - destruct Hr as (d & Hd & ->). unfold source_entries in Hso. rewrite Hd in Hso.
      cbn in Hso. subst d. reflexivity.
    - tauto. }
  subst q'. rewrite (cycle_empty cfg e i f [] f' evs Hl).
  do 2 eexists. split; [reflexivity|]. split; [exact Hso|].
  unfold selections, requests, renames, skips, scans in *. cbn.
  rewrite !omap_app, Q1, Q2, Q3, Q4, Q5. cbn. auto.
Qed.

(** C7.  A cycle calls the scanner exactly when it starts with an empty
    queue.  When the queue is still empty after the scan, the cycle is
    the scan followed by the warning of a skip: it returns normally with
    no selection, no removal and no request.  And on an empty source
    directory that nobody fills, any number of cycles do just that, one
    scan and one skip each. *)
Theorem empty_queue_cycle cfg e s ts :
  (imageFiles s = [] -> scans (events_of (postNextImage cfg e s)) = [tt]) /\
  (imageFiles s <> [] -> scans (events_of (postNextImage cfg e s)) = []) /\
  (imageFiles s = [] -> imageFiles (state_of (loadImageFiles cfg e s)) = [] ->
   postNextImage cfg e s =
     (Ret tt, state_of (loadImageFiles cfg e s),
      EvLog LInfo MsgPreparing :: EvLog LInfo MsgNoImages ::
      events_of (loadImageFiles cfg e s) ++ [EvLog LWarn MsgSkipping]) /\
   selections (events_of (postNextImage cfg e s)) = [] /\
   requests (events_of (postNextImage cfg e s)) = [] /\
   renames (events_of (postNextImage cfg e s)) = [] /\
   skips (events_of (postNextImage cfg e s)) = [tt]) /\
  (imageFiles s = [] -> source_entries cfg (fs s) = [] ->
   Forall (fun t => world t = None) ts ->
   result_of (cycles cfg ts s) = Ret tt /\
   imageFiles (state_of (cycles cfg ts s)) = [] /\
   selections (events_of (cycles cfg ts s)) = [] /\
   requests (events_of (cycles cfg ts s)) = [] /\
   renames (events_of (cycles cfg ts s)) = [] /\
   length (skips (events_of (cycles cfg ts s))) = length ts /\
   length (scans (events_of (cycles cfg ts s))) = length ts).
Proof.
  destruct s as [q i f]. cbn [imageFiles fs]. split; [|split; [|split]].
  - intros ->.
    destruct (load_spec cfg e [] i f) as (q' & f' & evs & Hl & _ & _ & _ & _ & _ & _ & Q4 & _).
    rewrite (cycle_empty cfg e i f q' f' evs Hl). destruct q' as [|x q'].
    + unfold scans in *. cbn. rewrite omap_app, Q4. reflexivity.
    + destruct (selected_quiet cfg e (x :: q') i f') as [S1 _].
      destruct (postNextImage_selected cfg e _) as [[r s1] t1].
      unfold scans in *. cbn in *. rewrite omap_app, Q4, S1. reflexivity.
  - intros Hne. rewrite (cycle_nonempty cfg e q i f Hne).
    destruct (selected_quiet cfg e q i f) as [S1 _].
    destruct (postNextImage_selected cfg e _) as [[r s1] t1]. exact S1.
  - intros ->.
    destruct (load_spec cfg e [] i f)
      as (q' & f' & evs & Hl & _ & _ & _ & Q1 & Q2 & Q3 & Q4 & Q5).
    rewrite Hl. cbn [state_of events_of fst snd imageFiles]. intros ->.
    rewrite (cycle_empty cfg e i f [] f' evs Hl). split; [reflexivity|].
    unfold selections, requests, renames, skips in *. cbn.
    rewrite !omap_app, Q1, Q2, Q3, Q5. cbn. auto.
  - intros -> Hsrc Hts. revert f Hsrc.
    induction Hts as [|t ts Hw _ IH]; intros f Hsrc; [cbn; auto 10|].
    cbn [cycles]. rewrite Hw. cbn [interfere].
    erewrite bind_run by reflexivity. cbv beta iota.
    destruct (empty_source_cycle cfg (answers t) i f Hsrc)
      as (f' & evs & Hc & Hso & Q1 & Q2 & Q3 & Q4 & Q5).
    erewrite bind_run by exact Hc. cbv beta iota.
    specialize (IH f' Hso).
    destruct (cycles cfg ts _) as [[r2 s2] t2]. cbn in IH |- *.
    destruct IH as (I1 & I2 & I3 & I4 & I5 & I6 & I7).
    unfold selections, requests, renames, skips, scans in *.
    rewrite !omap_app, Q1, Q2, Q3, Q4, Q5, I3, I4, I5. cbn. auto 10.
Qed.

(** ** The properties at work in the small world *)

Example scenario_first_cycle :
  let out := start example_config calm [Tick None calm] (initial example_fs) in
  result_of out = Ret tt /\
  imageFiles (state_of out) = ["b.png"] /\
  currentIndex (state_of out) = 0 /\
  fs_lookup (fs (state_of out)) (path_join "./posted" "a.jpg") = Some (File [Byte.x01]) /\
  fs_lookup (fs (state_of out)) (path_join "./images" "a.jpg") = None.
Proof. vm_compute. repeat split; reflexivity. Qed.

(** The filter reads names only: a folder with the name of an image is
    listed by [fs.readdir] like any entry, and kept. *)
Example folder_named_like_an_image :
  imageFiles (state_of (loadImageFiles example_config calm
                (initial {[ "./images" := [("album.GIF", Folder); ("notes", Folder)];
                            "./posted" := [] ]})))
  = ["album.GIF"].
Proof. vm_compute. reflexivity. Qed.

Example scenario_unauthorized :
  let out := postNextImage example_config (answers_with None unauthorized status_100 None)
               (State ["a.jpg"; "b.png"] 0 example_fs) in
  imageFiles (state_of out) = ["b.png"] /\
  fs (state_of out) = example_fs /\
  (LError, MsgResponseStatus 401) ∈ logged (events_of out).
Proof. vm_compute. repeat split; repeat constructor. Qed.

Lemma cycle_selects_and_removes_witness :
  imageFiles (between_cycles example_config example_fs calm [] example_fs) <> [] /\
  exists file,
    ["a.jpg"; "b.png"] !! 0%nat = Some file /\
    result_of (postNextImage example_config (answers_with None unauthorized status_100 None)
                 (between_cycles example_config example_fs calm [] example_fs)) = Ret tt /\
    selections (events_of (postNextImage example_config
                             (answers_with None unauthorized status_100 None)
                             (between_cycles example_config example_fs calm [] example_fs)))
      = [path_join "./images" file] /\
    imageFiles (state_of (postNextImage example_config
                            (answers_with None unauthorized status_100 None)
                            (between_cycles example_config example_fs calm [] example_fs)))
      = delete 0%nat ["a.jpg"; "b.png"].
Proof.
  assert (H1 : imageFiles (between_cycles example_config example_fs calm [] example_fs) <> [])
    by (vm_compute; discriminate).
  split; [exact H1|].
  exact (cycle_selects_and_removes example_config example_fs calm [] example_fs
           (answers_with None unauthorized status_100 None) H1).
Defined.

Lemma scan_keeps_exactly_image_names_witness :
  result_of (loadImageFiles_try example_config calm (initial example_fs)) = Ret tt /\
  imageFiles (state_of (loadImageFiles example_config calm (initial example_fs)))
    = List.filter is_image_file (dir_names (source_entries example_config example_fs)) /\
  forall name,
    name ∈ imageFiles (state_of (loadImageFiles example_config calm (initial example_fs))) <->
    (exists kind, (name, kind) ∈ source_entries example_config example_fs) /\
    has_image_extension name.
Proof.
  assert (H : result_of (loadImageFiles_try example_config calm (initial example_fs)) = Ret tt)
    by (vm_compute; reflexivity).
  split; [exact H|].
  exact (scan_keeps_exactly_image_names example_config calm (initial example_fs) H).
Defined.

(** C2 as stated fails: subdirectories are not excluded.  A folder of the
    source directory whose name ends in an image extension passes the
    filter and is queued. *)
Lemma subdirectory_with_image_name_is_queued :
  ~ (forall cfg e s name,
       result_of (loadImageFiles_try cfg e s) = Ret tt ->
       (name, Folder) ∈ source_entries cfg (fs s) ->
       name ∉ imageFiles (state_of (loadImageFiles cfg e s))).
Proof.
  intros H.
  apply (H example_config calm (initial album_fs) "album.GIF").
  - vm_compute. reflexivity.
  - vm_compute. apply list_elem_of_here.
  - vm_compute. apply list_elem_of_here.
Qed.

(** C4 as stated fails: with both API calls successful and a rename
    that fails (here across devices), the file is not in the archive
    folder and is still in the source folder. *)
Lemma archive_can_fail_after_successful_post :
  ~ (forall cfg e p s,
       both_calls_succeed e (events_of (postImageToFediverse cfg e p s)) ->
       is_Some (fs_lookup (fs (state_of (postImageToFediverse cfg e p s)))
                  (path_join (postedFolder cfg) (basename p))) /\
       fs_lookup (fs (state_of (postImageToFediverse cfg e p s))) p = None).
Proof.
  intros H.
  destruct (H example_config
              (answers_with None media_42 status_100 (Some (fs_error "EXDEV")))
              (path_join "./images" "a.jpg")
              (State ["a.jpg"; "b.png"] 0 example_fs)) as [_ Hsrc].
  - vm_compute. auto.
  - vm_compute in Hsrc. discriminate Hsrc.
Qed.

Lemma archive_after_successful_post_witness :
  both_calls_succeed calm
    (events_of (postImageToFediverse example_config calm (path_join "./images" "a.jpg")
                  (State ["a.jpg"; "b.png"] 0 example_fs))) /\
  renames (events_of (postImageToFediverse example_config calm (path_join "./images" "a.jpg")
                        (State ["a.jpg"; "b.png"] 0 example_fs)))
    = [(path_join "./images" "a.jpg", path_join "./posted" "a.jpg")].
Proof.
  assert (H : both_calls_succeed calm
    (events_of (postImageToFediverse example_config calm (path_join "./images" "a.jpg")
                  (State ["a.jpg"; "b.png"] 0 example_fs))))
    by (vm_compute; auto).
  split; [exact H|].
  exact (proj1 (proj1 (archive_after_successful_post example_config calm
                         (path_join "./images" "a.jpg")
                         (State ["a.jpg"; "b.png"] 0 example_fs))) H).
Defined.



Lemma read_failure_aborts_witness :
  read_succeeds (Some (fs_error "EACCES")) example_fs (path_join "./images" "a.jpg") = false /\
  exists msg,
    postImageToFediverse example_config
      (answers_with (Some (fs_error "EACCES")) media_42 status_100 None)
      (path_join "./images" "a.jpg") (State ["a.jpg"; "b.png"] 0 example_fs) =
      (Ret tt, State ["a.jpg"; "b.png"] 0 example_fs,
       [EvLog LInfo (MsgAttempting (path_join "./images" "a.jpg"));
        EvReadFile (path_join "./images" "a.jpg");
        EvLog LError (MsgErrorReadingFile (path_join "./images" "a.jpg") msg)]) /\
    requests (events_of (postImageToFediverse example_config
                (answers_with (Some (fs_error "EACCES")) media_42 status_100 None)
                (path_join "./images" "a.jpg") (State ["a.jpg"; "b.png"] 0 example_fs))) = [] /\
    renames (events_of (postImageToFediverse example_config
                (answers_with (Some (fs_error "EACCES")) media_42 status_100 None)
                (path_join "./images" "a.jpg") (State ["a.jpg"; "b.png"] 0 example_fs))) = [].
Proof.
  assert (H : read_succeeds
                (readFile_image (answers_with (Some (fs_error "EACCES")) media_42 status_100 None))
                (fs (State ["a.jpg"; "b.png"] 0 example_fs))
                (path_join "./images" "a.jpg") = false) by reflexivity.
  split; [exact H|].
  exact (read_failure_aborts example_config
           (answers_with (Some (fs_error "EACCES")) media_42 status_100 None)
           (path_join "./images" "a.jpg") (State ["a.jpg"; "b.png"] 0 example_fs) H).
Defined.

Lemma empty_queue_cycle_witness :
  imageFiles (initial empty_fs) = [] /\
  source_entries example_config (fs (initial empty_fs)) = [] /\
  Forall (fun t => world t = None) [Tick None calm; Tick None no_access; Tick None calm] /\
  result_of (cycles example_config [Tick None calm; Tick None no_access; Tick None calm]
               (initial empty_fs)) = Ret tt /\
  length (skips (events_of (cycles example_config
                              [Tick None calm; Tick None no_access; Tick None calm]
                              (initial empty_fs)))) = 3%nat.
Proof.
  assert (H1 : imageFiles (initial empty_fs) = []) by reflexivity.
  assert (H2 : source_entries example_config (fs (initial empty_fs)) = []) by reflexivity.
  assert (H3 : Forall (fun t => world t = None)
                 [Tick None calm; Tick None no_access; Tick None calm])
    by (repeat constructor).
  split; [exact H1|]. split; [exact H2|]. split; [exact H3|].
  pose proof (proj2 (proj2 (proj2
    (empty_queue_cycle example_config calm (initial empty_fs)
       [Tick None calm; Tick None no_access; Tick None calm]))) H1 H2 H3) as H.
  split; [exact (proj1 H)|].
  exact (proj1 (proj2 (proj2 (proj2 (proj2 (proj2 H)))))).
Defined.

Lemma failed_move_leaves_file_witness :
  both_calls_succeed (answers_with None media_42 status_100 (Some (fs_error "EXDEV")))
    (events_of (postNextImage example_config
                  (answers_with None media_42 status_100 (Some (fs_error "EXDEV")))
                  (between_cycles example_config example_fs calm [] example_fs))) /\
  rename_succeeds (Some (fs_error "EXDEV")) example_fs
    (path_join "./images" "a.jpg") (path_join "./posted" "a.jpg") = false /\
  fs (state_of (postNextImage example_config
                  (answers_with None media_42 status_100 (Some (fs_error "EXDEV")))
                  (between_cycles example_config example_fs calm [] example_fs)))
    = example_fs /\
  imageFiles (state_of (postNextImage example_config
                  (answers_with None media_42 status_100 (Some (fs_error "EXDEV")))
                  (between_cycles example_config example_fs calm [] example_fs)))
    = delete 0%nat ["a.jpg"; "b.png"].
Proof.
  assert (H2 : imageFiles (between_cycles example_config example_fs calm [] example_fs)
                 !! Z.to_nat (currentIndex
                      (between_cycles example_config example_fs calm [] example_fs))
               = Some "a.jpg") by (vm_compute; reflexivity).
  assert (H4 : both_calls_succeed
                 (answers_with None media_42 status_100 (Some (fs_error "EXDEV")))
                 (events_of (postNextImage example_config
                    (answers_with None media_42 status_100 (Some (fs_error "EXDEV")))
                    (between_cycles example_config example_fs calm [] example_fs))))
    by (vm_compute; auto).
  assert (H5 : rename_succeeds
                 (rename_image (answers_with None media_42 status_100 (Some (fs_error "EXDEV"))))
                 example_fs
                 (path_join (imageFolder example_config) "a.jpg")
                 (path_join (postedFolder example_config) "a.jpg") = false) by reflexivity.
  pose proof (failed_move_leaves_file example_config example_fs calm [] example_fs
                (answers_with None media_42 status_100 (Some (fs_error "EXDEV")))
                "a.jpg" H2 H4 H5)
    as (_ & Hfs & _ & Hq & _).
  split; [exact H4|]. split; [exact H5|]. split; [exact Hfs|]. exact Hq.
Defined.


Lemma scan_error_is_contained_witness :
  result_of (loadImageFiles_try example_config no_access
               (State ["a.jpg"; "b.png"] 0 example_fs)) = Throw (fs_error "EACCES") /\
  result_of (loadImageFiles example_config no_access
               (State ["a.jpg"; "b.png"] 0 example_fs)) = Ret tt /\
  imageFiles (state_of (loadImageFiles example_config no_access
                          (State ["a.jpg"; "b.png"] 0 example_fs))) = ["a.jpg"; "b.png"] /\
  currentIndex (state_of (loadImageFiles example_config no_access
                            (State ["a.jpg"; "b.png"] 0 example_fs))) = 0 /\
  (LError, MsgErrorReadingFolder "EACCES")
    ∈ logged (events_of (loadImageFiles example_config no_access
                           (State ["a.jpg"; "b.png"] 0 example_fs))).
Proof.
  assert (H : result_of (loadImageFiles_try example_config no_access
                           (State ["a.jpg"; "b.png"] 0 example_fs))
              = Throw (fs_error "EACCES")) by reflexivity.
  split; [exact H|].
  exact (scan_error_is_contained example_config no_access
           (State ["a.jpg"; "b.png"] 0 example_fs) (fs_error "EACCES") H).
Defined.

(** * Further properties *)

(** ** [ensureDirectoryExists] *)

(** X1.  [ensureDirectoryExists] leaves the queue and the cursor alone
    and concerns the one directory it is given: all it does is call
    [fs.access] and [fs.mkdir] on that directory and announce the
    creation at level info; and unless it calls [fs.mkdir], the file
    system is what it was. *)
Theorem ensure_concerns_its_directory fa fm d s :
  imageFiles (state_of (ensureDirectoryExists fa fm d s)) = imageFiles s /\
  currentIndex (state_of (ensureDirectoryExists fa fm d s)) = currentIndex s /\
  Forall (concerns_directory d) (events_of (ensureDirectoryExists fa fm d s)) /\
  (mkdir_calls (events_of (ensureDirectoryExists fa fm d s)) = [] ->
   fs (state_of (ensureDirectoryExists fa fm d s)) = fs s).
Proof.
  destruct s as [q i f]. run. repeat step.
  all: cbn; repeat split; try reflexivity; try discriminate.
  all: repeat (apply Forall_cons; split); try apply Forall_nil; cbn; auto.
Qed.

(** X2.  An error of [fs.access] whose code is not ENOENT is thrown on
    as it is: the directory is not created, nothing is logged, the state
    is untouched. *)
Theorem ensure_rethrows_other_errors (fm : fault) d s err :
  code err <> Some "ENOENT" ->
  ensureDirectoryExists (Some err) fm d s = (Throw err, s, [EvAccess d]).
Proof.
  intros Hc. destruct s as [q i f]. run.
  destruct (decide (code err = Some "ENOENT")); [contradiction | reflexivity].
Qed.

(** X3.  The directory is created exactly when [fs.access] reports
    ENOENT, by its own fault or because the directory is missing; then
    [fs.mkdir] is called once, and its failure is the one thrown. *)
Theorem ensure_mkdir_on_absence fa fm d s :
  let absent :=
    match fa with
    | Some err => bool_decide (code err = Some "ENOENT")
    | None => bool_decide (fs s !! d = None)
    end in
  mkdir_calls (events_of (ensureDirectoryExists fa fm d s))
    = (if absent then [d] else []) /\
  (absent = true ->
   result_of (ensureDirectoryExists fa fm d s)
     = match fm with Some err => Throw err | None => Ret tt end).
Proof.
  destruct s as [q i f]. cbn [fs]. run. repeat step.
  all: try (exfalso; match goal with H : _ <> _ |- _ => apply H; reflexivity end).
  all: cbn; repeat case_bool_decide; try congruence; try (split; [reflexivity|]);
       try reflexivity; try discriminate; try (intros _; reflexivity).
Qed.

(** ** [loadImageFiles] *)

Lemma load_events_scan cfg e s :
  forallb is_scan_event (events_of (loadImageFiles cfg e s)) = true.
Proof. destruct s as [q i f]. run. repeat step; reflexivity. Qed.

(** X4.  [loadImageFiles] never throws and never moves the cursor; all it
    does to the outside world is log and look at or create directories
    (no file is read or moved, no request is sent); and unless it calls
    [fs.mkdir], the file system is what it was. *)
Theorem scan_only_touches_directories cfg e s :
  result_of (loadImageFiles cfg e s) = Ret tt /\
  currentIndex (state_of (loadImageFiles cfg e s)) = currentIndex s /\
  forallb is_scan_event (events_of (loadImageFiles cfg e s)) = true /\
  (mkdir_calls (events_of (loadImageFiles cfg e s)) = [] ->
   fs (state_of (loadImageFiles cfg e s)) = fs s).
Proof.
  split; [|split; [|split; [apply load_events_scan|]]].
  1,2: destruct s as [q i f];
       destruct (load_spec cfg e q i f) as (q' & f' & evs & Hl & _);
       rewrite Hl; reflexivity.
  destruct s as [q i f]. run. repeat step.
  all: cbn; try reflexivity; try discriminate.
Qed.

(** X5.  A scan that goes through keeps the order of the listing and
    adds nothing: the queue is a sublist of the names listed, without
    duplicates when the listing has none. *)
Theorem scan_keeps_listing_order cfg e s :
  result_of (loadImageFiles_try cfg e s) = Ret tt ->
  imageFiles (state_of (loadImageFiles cfg e s))
    `sublist_of` dir_names (source_entries cfg (fs s)) /\
  (NoDup (dir_names (source_entries cfg (fs s))) ->
   NoDup (imageFiles (state_of (loadImageFiles cfg e s)))).
Proof.
  intros Hret. destruct (scan_result cfg e s Hret) as (_ & -> & _).
  assert (Hsub : forall l : list string, List.filter is_image_file l `sublist_of` l).
  { induction l as [|x l IH]; cbn; [constructor|].
    destruct (is_image_file x); [now apply sublist_skip | now apply sublist_cons]. }
  split; [apply Hsub|]. intros Hnd. eapply sublist_NoDup; [exact Hnd | apply Hsub].
Qed.

(** ** [movePostedImage] and [postImageToFediverse] *)

(** X7.  [movePostedImage] never throws and leaves the queue and the
    cursor alone.  It makes one call of [fs.rename], to the archive
    folder under the base name of the path, and logs one line: the move
    at level info when the call goes through, the error at level error
    when it does not, and then the file system is unchanged. *)
Theorem move_is_contained cfg e p s :
  result_of (movePostedImage cfg e p s) = Ret tt /\
  imageFiles (state_of (movePostedImage cfg e p s)) = imageFiles s /\
  currentIndex (state_of (movePostedImage cfg e p s)) = currentIndex s /\
  renames (events_of (movePostedImage cfg e p s))
    = [(p, path_join (postedFolder cfg) (basename p))] /\
  if rename_succeeds (rename_image e) (fs s) p (path_join (postedFolder cfg) (basename p))
  then logged (events_of (movePostedImage cfg e p s))
         = [(LInfo, MsgMoved (basename p) (postedFolder cfg))]
  else fs (state_of (movePostedImage cfg e p s)) = fs s /\
       exists msg, logged (events_of (movePostedImage cfg e p s))
                   = [(LError, MsgErrorMoving (basename p) msg)].
Proof.
  destruct s as [q i f], p as [d n]. run. repeat step.
  all: cbn; repeat split; eauto.
Qed.

(** X8.  [postImageToFediverse] never throws, leaves the queue and the
    cursor alone, and does nothing to the outside world but log, read
    the file, send requests and move the file.  It sends nothing, or the
    upload of the file's content under its base name, or that upload
    followed by one status request whose only media id is the [id] read
    from the body of the upload's response; both requests carry the
    bearer token. *)
Theorem publish_requests cfg e p s :
  result_of (postImageToFediverse cfg e p s) = Ret tt /\
  imageFiles (state_of (postImageToFediverse cfg e p s)) = imageFiles s /\
  currentIndex (state_of (postImageToFediverse cfg e p s)) = currentIndex s /\
  forallb is_publish_event (events_of (postImageToFediverse cfg e p s)) = true /\
  (requests (events_of (postImageToFediverse cfg e p s)) = [] \/
   exists content,
     fs_lookup (fs s) p = Some (File content) /\
     (requests (events_of (postImageToFediverse cfg e p s))
        = [media_request cfg content (basename p)] \/
      exists data mediaId,
        upload e = Resolved data /\ property data "id" = Ret mediaId /\
        requests (events_of (postImageToFediverse cfg e p s))
          = [media_request cfg content (basename p); status_request cfg mediaId])).
Proof.
  destruct s as [q i f], p as [d n]. unfold media_request, status_request.
  run. repeat step.
  all: cbn; repeat (split; [reflexivity|]).
  all: try (left; reflexivity).
  all: right; eexists; (split; [reflexivity|]).
  all: try (left; reflexivity).
  all: right; do 2 eexists; repeat split; eauto.
Qed.

(** X9.  When the upload is rejected, the attempt is exactly: the
    announcement, the read, the upload request, and the error logged at
    level error, followed by the status and the body of the response
    when the error carries one.  No status request is sent, nothing is
    moved, the state is untouched. *)
Theorem rejected_upload_trace cfg e p s err :
  read_succeeds (readFile_image e) (fs s) p = true ->
  upload e = Rejected err ->
  exists content,
    fs_lookup (fs s) p = Some (File content) /\
    postImageToFediverse cfg e p s =
      (Ret tt, s,
       [EvLog LInfo (MsgAttempting p); EvReadFile p; EvLog LInfo MsgFileRead;
        EvLog LInfo MsgUploading;
        EvRequest (media_request cfg content (basename p))]
       ++ posting_error_log (basename p) err).
Proof.
  destruct s as [q i f], p as [d n]. unfold media_request, posting_error_log.
  intros Hread Hup. revert Hread. run. rewrite Hup. run. repeat step.
  all: cbn; intros Hread; try discriminate Hread.
  all: eexists; split; reflexivity.
Qed.


(** ** [postNextImage] *)

(** X11.  With a non-empty queue and a cursor that is not one of its
    indices, [imageFiles[currentIndex]] is [undefined] and [path.join]
    throws: the cycle ends right after its first log line, with nothing
    read, sent, moved or removed. *)
Theorem cursor_outside_queue_throws cfg e s :
  imageFiles s <> [] ->
  currentIndex s < 0 \/ Z.of_nat (length (imageFiles s)) <= currentIndex s ->
  exists err,
    postNextImage cfg e s = (Throw err, s, [EvLog LInfo MsgPreparing]).
Proof.
  destruct s as [q i f]. cbn [imageFiles currentIndex]. intros Hne Hi.
  assert (Hjs : js_index q i = None).
  { unfold js_index. destruct (Z.leb_spec 0 i); [|reflexivity].
    destruct Hi; [lia|]. apply lookup_ge_None. lia. }
  destruct (selected_throws cfg e q i f Hjs) as (err & Hs).
  exists err. now rewrite (cycle_nonempty cfg e q i f Hne), Hs.
Qed.

(** X12.  A cycle that starts with an empty queue (and the cursor at 0)
    and whose scan finds candidates publishes in the same cycle: it scans
    once, selects the first candidate of the listing and leaves the
    others in the queue, in order. *)
Theorem refill_and_post cfg e s first rest :
  imageFiles s = [] -> currentIndex s = 0 ->
  result_of (loadImageFiles_try cfg e s) = Ret tt ->
  List.filter is_image_file (dir_names (source_entries cfg (fs s))) = first :: rest ->
  result_of (postNextImage cfg e s) = Ret tt /\
  scans (events_of (postNextImage cfg e s)) = [tt] /\
  selections (events_of (postNextImage cfg e s)) = [path_join (imageFolder cfg) first] /\
  imageFiles (state_of (postNextImage cfg e s)) = rest /\
  currentIndex (state_of (postNextImage cfg e s)) = 0.
Proof.
  destruct s as [q i f]. cbn [imageFiles currentIndex fs]. intros -> -> Hret Hlist.
  destruct (scan_result cfg e _ Hret) as (_ & Hq & _). cbn [fs] in Hq. rewrite Hlist in Hq.
  destruct (load_spec cfg e [] 0 f)
    as (q' & f' & evs & Hl & _ & _ & _ & _ & _ & Q3 & Q4 & _).
  rewrite Hl in Hq. cbn in Hq. subst q'.
  rewrite (cycle_empty cfg e 0 f (first :: rest) f' evs Hl).
  destruct (selected_in_range cfg e (first :: rest) 0 f')
    as (file & f2 & ev2 & Hf & _ & S1 & S2 & _ & Hs).
  { cbn [length]. lia. }
  cbn in Hf. injection Hf as <-. rewrite Hs.
  cbn [result_of state_of events_of fst snd imageFiles currentIndex].
  unfold scans, selections in *. cbn. rewrite !omap_app. cbn.
  rewrite !omap_app, Q3, Q4, S1, S2. cbn.
  repeat split; try reflexivity. apply next_index_zero.
Qed.

Lemma cycle_at_zero cfg e first rest f :
  exists f' evs,
    postNextImage cfg e (State (first :: rest) 0 f) = (Ret tt, State rest 0 f', evs) /\
    selections evs = [path_join (imageFolder cfg) first] /\ scans evs = [].
Proof.
  destruct (selected_in_range cfg e (first :: rest) 0 f)
    as (file & f2 & ev2 & Hf & _ & S1 & S2 & _ & Hs).
  { cbn [length]. lia. }
  cbn in Hf. injection Hf as <-.
  rewrite (cycle_nonempty cfg e (first :: rest) 0 f ltac:(discriminate)), Hs.
  cbn [Z.to_nat delete list_delete]. rewrite next_index_zero.
  do 2 eexists. split; [reflexivity|].
  unfold scans, selections in *. cbn. rewrite !omap_app, S1, S2. auto.
Qed.

(** X13.  The queue is served first in, first out.  From a cursor at 0,
    as many cycles as the queue has entries, or fewer, select the
    entries in queue order, one each, whatever the publish attempts come
    to and whatever happens to the file system meanwhile; no cycle
    throws or scans, and what is left is the rest of the queue. *)
Theorem queue_is_served_in_order cfg ts s :
  currentIndex s = 0 ->
  (length ts <= length (imageFiles s))%nat ->
  result_of (cycles cfg ts s) = Ret tt /\
  selections (events_of (cycles cfg ts s))
    = map (path_join (imageFolder cfg)) (take (length ts) (imageFiles s)) /\
  scans (events_of (cycles cfg ts s)) = [] /\
  imageFiles (state_of (cycles cfg ts s)) = drop (length ts) (imageFiles s) /\
  currentIndex (state_of (cycles cfg ts s)) = 0.
Proof.
  destruct s as [q i f]. cbn [imageFiles currentIndex]. intros -> Hlen.
  revert q f Hlen. induction ts as [|t ts IH]; intros q f Hlen.
  - cbn. rewrite drop_0. auto.
  - destruct q as [|first rest]; [cbn in Hlen; lia|]. cbn [length] in Hlen.
    cbn [cycles]. destruct (interfere_run (world t) (first :: rest) 0 f) as (f1 & Hi).
    erewrite bind_run by exact Hi. cbv beta iota.
    destruct (cycle_at_zero cfg (answers t) first rest f1) as (f2 & evs & Hc & S1 & S2).
    erewrite bind_run by exact Hc. cbv beta iota.
    destruct (IH rest f2 ltac:(lia)) as (I1 & I2 & I3 & I4 & I5).
    destruct (cycles cfg ts _) as [[r2 s2] t2].
    cbn [result_of state_of events_of fst snd] in *.
    unfold selections, scans in *. cbn [app length take drop map].
    rewrite !omap_app, S1, S2, I2, I3. auto.
Qed.

Lemma post_bounds cfg e p q i f :
  exists f' evs,
    postImageToFediverse cfg e p (State q i f) = (Ret tt, State q i f', evs) /\
    (length (requests evs) <= 2)%nat /\ (length (renames evs) <= 1)%nat /\
    scans evs = [].
Proof.
  run. repeat step.
  all: do 2 eexists; (split; [reflexivity|]); cbn; repeat split; lia.
Qed.

Lemma selected_bounds cfg e s :
  (length (requests (events_of (postNextImage_selected cfg e s))) <= 2)%nat /\
  (length (renames (events_of (postNextImage_selected cfg e s))) <= 1)%nat /\
  scans (events_of (postNextImage_selected cfg e s)) = [].
Proof.
  destruct s as [q i f]. destruct (js_index q i) as [file|] eqn:Hjs.
  - destruct (post_bounds cfg e (path_join (imageFolder cfg) file) q i f)
      as (f' & evs & Hp & B1 & B2 & B3).
    rewrite (selected_run cfg e q i f file f' evs Hjs Hp).
    unfold requests, renames, scans in *. cbn. rewrite !omap_app, !length_app, B3. cbn.
    repeat split; lia.
  - destruct (selected_throws cfg e q i f Hjs) as (err & ->). cbn. repeat split; lia.
Qed.

Lemma cycle_bounds cfg e s :
  (length (requests (events_of (postNextImage cfg e s))) <= 2)%nat /\
  (length (renames (events_of (postNextImage cfg e s))) <= 1)%nat /\
  (length (scans (events_of (postNextImage cfg e s))) <= 1)%nat.
Proof.
  destruct s as [q i f]. destruct q as [|x q].
  - destruct (load_spec cfg e [] i f)
      as (q' & f' & evs & Hl & _ & _ & _ & Q1 & Q2 & _ & Q4 & _).
    rewrite (cycle_empty cfg e i f q' f' evs Hl). destruct q' as [|y q'].
    + unfold requests, renames, scans in *. cbn. rewrite !omap_app, Q1, Q2, Q4. cbn.
      repeat split; lia.
    + destruct (selected_bounds cfg e (State (y :: q') i f')) as (B1 & B2 & B3).
      destruct (postNextImage_selected cfg e _) as [[r s1] t1].
      unfold requests, renames, scans in *. cbn in *.
      rewrite !omap_app, !length_app, Q1, Q2, Q4, B3. cbn. repeat split; lia.
  - rewrite (cycle_nonempty cfg e (x :: q) i f ltac:(discriminate)).
    destruct (selected_bounds cfg e (State (x :: q) i f)) as (B1 & B2 & B3).
    destruct (postNextImage_selected cfg e _) as [[r s1] t1].
    unfold requests, renames, scans in *. cbn in *. rewrite B3. cbn. repeat split; lia.
Qed.

(** X14.  The timer bounds the traffic: whatever the state, the file
    system and the answers, [n] cycles send at most [2 n] requests, move
    at most [n] files and scan at most [n] times. *)
Theorem traffic_is_bounded cfg ts s :
  (length (requests (events_of (cycles cfg ts s))) <= 2 * length ts)%nat /\
  (length (renames (events_of (cycles cfg ts s))) <= length ts)%nat /\
  (length (scans (events_of (cycles cfg ts s))) <= length ts)%nat.
Proof.
  revert s. induction ts as [|t ts IH]; intros s; [cbn; repeat split; lia|].
  cbn [cycles]. destruct s as [q i f].
  destruct (interfere_run (world t) q i f) as (f1 & Hi).
  erewrite bind_run by exact Hi. cbv beta iota.
  destruct (cycle_bounds cfg (answers t) (State q i f1)) as (B1 & B2 & B3).
  destruct (postNextImage cfg (answers t) _) as [[r s1] t1] eqn:Hp.
  erewrite bind_run by exact Hp. cbn [events_of snd] in B1, B2, B3.
  destruct r as [[]|err].
  - destruct (IH s1) as (I1 & I2 & I3).
    destruct (cycles cfg ts s1) as [[r2 s2] t2].
    cbn [events_of snd app length] in *.
    unfold requests, renames, scans in *.
    rewrite !omap_app, !length_app. repeat split; lia.
  - cbn [events_of snd app length] in *. repeat split; lia.
Qed.

(** ** A whole run *)

(** X15.  The cursor never moves.  After [start] and any number of
    cycles the cursor is 0, so the next file is always the head of the
    queue, and every name in the queue has one of the four image
    extensions. *)
Theorem run_serves_the_head cfg fs0 e0 ts :
  currentIndex (state_of (start cfg e0 ts (initial fs0))) = 0 /\
  forall file,
    file ∈ imageFiles (state_of (start cfg e0 ts (initial fs0))) ->
    has_image_extension file.
Proof.
  destruct (start_scanned_queue cfg fs0 e0 ts) as [Hi Hq]. split; [exact Hi|].
  intros file Hf. apply is_image_file_iff. rewrite Forall_forall in Hq. now apply Hq.
Qed.

(** The events of a cycle are those of its scan, those of its publish
    attempt, and log lines of its own. *)
Lemma cycle_Forall cfg e s (Q : event -> Prop) :
  (forall l m, (forall c, m <> MsgConfiguration c) -> Q (EvLog l m)) ->
  Forall Q (events_of (loadImageFiles cfg e s)) ->
  (forall file s',
     file ∈ imageFiles s \/ file ∈ imageFiles (state_of (loadImageFiles cfg e s)) ->
     Forall Q (events_of (postImageToFediverse cfg e (path_join (imageFolder cfg) file) s'))) ->
  Forall Q (events_of (postNextImage cfg e s)).
Proof.
  intros Hlog Hload Hpost. destruct s as [q i f].
  assert (Hsel : forall q' f', (forall file, file ∈ q' ->
              file ∈ q \/ file ∈ imageFiles (state_of (loadImageFiles cfg e (State q i f)))) ->
            Forall Q (events_of (postNextImage_selected cfg e (State q' i f')))).
  { intros q' f' Hin. destruct (js_index q' i) as [file|] eqn:Hjs.
    - destruct (post_spec cfg e (path_join (imageFolder cfg) file) q' i f')
        as (f2 & evs & Hp & _).
      rewrite (selected_run cfg e q' i f' file f2 evs Hjs Hp). cbn [events_of snd].
      constructor; [apply Hlog; discriminate|]. apply Forall_app. split.
      + specialize (Hpost file (State q' i f')). rewrite Hp in Hpost. apply Hpost.
        apply Hin. unfold js_index in Hjs. destruct (0 <=? i); [|discriminate].
        eapply list_elem_of_lookup_2. exact Hjs.
      + constructor; [apply Hlog; discriminate | constructor].
    - destruct (selected_throws cfg e q' i f' Hjs) as (err & ->). constructor. }
  destruct q as [|x q].
  - destruct (load_spec cfg e [] i f) as (q' & f' & evs & Hl & _).
    rewrite Hl in Hload, Hsel. cbn [events_of state_of fst snd imageFiles] in Hload, Hsel.
    rewrite (cycle_empty cfg e i f q' f' evs Hl). destruct q' as [|y q'].
    + cbn [events_of snd]. do 2 (constructor; [apply Hlog; discriminate|]).
      apply Forall_app. split; [exact Hload|].
      constructor; [apply Hlog; discriminate | constructor].
    + specialize (Hsel (y :: q') f' ltac:(auto)).
      destruct (postNextImage_selected cfg e _) as [[r s1] t1]. cbn [events_of snd] in *.
      do 2 (constructor; [apply Hlog; discriminate|]). apply Forall_app. auto.
  - rewrite (cycle_nonempty cfg e (x :: q) i f ltac:(discriminate)).
    specialize (Hsel (x :: q) f ltac:(auto)).
    destruct (postNextImage_selected cfg e _) as [[r s1] t1]. cbn [events_of snd] in *.
    constructor; [apply Hlog; discriminate | exact Hsel].
Qed.

(** A property of events that the scanner of [start], the log lines of
    [start] and every cycle keep holds of all the events of a run. *)
Lemma start_Forall cfg (Q : event -> Prop) fs0 e0 ts :
  (forall l m, (forall c, m <> MsgConfiguration c) -> Q (EvLog l m)) ->
  (forall l c, accessToken c = "[REDACTED]" -> Q (EvLog l (MsgConfiguration c))) ->
  (forall f, Forall Q (events_of (loadImageFiles cfg e0 (initial f)))) ->
  (forall e s,
     currentIndex s = 0 /\ Forall (fun file => is_image_file file = true) (imageFiles s) ->
     Forall Q (events_of (postNextImage cfg e s))) ->
  Forall Q (events_of (start cfg e0 ts (initial fs0))).
Proof.
  intros Hlog Hcfg Hload Hcycle.
  assert (Hcycles : forall ts s,
            currentIndex s = 0 /\ Forall (fun file => is_image_file file = true) (imageFiles s) ->
            Forall Q (events_of (cycles cfg ts s))).
  { clear ts. induction ts as [|t ts IH]; intros s Hs; [constructor|].
    cbn [cycles]. destruct s as [q i f].
    destruct (interfere_run (world t) q i f) as (f' & Hi).
    erewrite bind_run by exact Hi. cbv beta iota.
    pose proof (Hcycle (answers t) (State q i f') Hs) as HQ.
    destruct (postNextImage_scanned_queue cfg (answers t) (State q i f') Hs) as (Hr & Hc).
    destruct (postNextImage cfg (answers t) _) as [[r s1] t1] eqn:Hp.
    cbn in Hr, Hc, HQ. subst r.
    erewrite bind_run by exact Hp. cbv beta iota.
    specialize (IH s1 Hc).
    destruct (cycles cfg ts s1) as [[r2 s2] t2]. cbn in *. apply Forall_app. auto. }
  unfold start.
  erewrite bind_run by reflexivity. cbv beta iota.
  erewrite bind_run by reflexivity. cbv beta iota.
  specialize (Hload fs0).
  destruct (load_spec cfg e0 [] 0 fs0) as (q' & f' & evs & Hl & _ & Hr & _).
  change (State [] 0 fs0) with (initial fs0) in *. rewrite Hl in Hload. cbn in Hload.
  assert (Hq' : Forall (fun file => is_image_file file = true) q').
  { destruct (result_of _).
    - destruct Hr as (d & _ & ->). apply filter_all_images.
    - destruct Hr as [-> _]. constructor. }
  erewrite bind_run by exact Hl. cbv beta iota.
  erewrite bind_run by reflexivity. cbv beta iota.
  destruct ts as [|t ts].
  { cbn. constructor; [apply Hlog; discriminate|].
    constructor; [apply Hcfg; reflexivity|]. apply Forall_app. split; [exact Hload|].
    constructor; [apply Hlog; discriminate | constructor]. }
  destruct (interfere_run (world t) q' 0 f') as (f2 & Hi).
  erewrite bind_run by exact Hi. cbv beta iota.
  assert (Hs : currentIndex (State q' 0 f2) = 0 /\
               Forall (fun file => is_image_file file = true) (imageFiles (State q' 0 f2)))
    by (split; [reflexivity | exact Hq']).
  pose proof (Hcycle (answers t) (State q' 0 f2) Hs) as HQ.
  destruct (postNextImage_scanned_queue cfg (answers t) (State q' 0 f2) Hs) as (Hr1 & Hc).
  destruct (postNextImage cfg (answers t) _) as [[r s1] t1] eqn:Hp.
  cbn in Hr1, Hc, HQ. subst r.
  erewrite bind_run by exact Hp. cbv beta iota.
  erewrite bind_run by reflexivity. cbv beta iota.
  specialize (Hcycles ts s1 Hc).
  destruct (cycles cfg ts s1) as [[r2 s2] t2]. cbn in *.
  constructor; [apply Hlog; discriminate|].
  constructor; [apply Hcfg; reflexivity|].
  apply Forall_app. split; [exact Hload|].
  constructor; [apply Hlog; discriminate|].
  apply Forall_app. split; [exact HQ|].
  constructor; [apply Hlog; discriminate | exact Hcycles].
Qed.

Lemma log_not_configuration (Q : event -> Prop) :
  (forall l m, Q (EvLog l m)) ->
  forall l m, (forall c, m <> MsgConfiguration c) -> Q (EvLog l m).
Proof. auto. Qed.

Lemma load_redacted cfg e s :
  Forall logs_redacted_token (events_of (loadImageFiles cfg e s)).
Proof. destruct s as [q i f]. run. repeat step; repeat constructor. Qed.

Lemma post_redacted cfg e p s :
  Forall logs_redacted_token (events_of (postImageToFediverse cfg e p s)).
Proof. destruct s as [q i f], p as [d n]. run. repeat step; repeat constructor. Qed.

(** X16.  The access token is not written to the log with the
    configuration: a run logs the configuration with [[REDACTED]] in
    the place of the token, and no cycle logs it again otherwise. *)
Theorem configuration_is_logged_redacted cfg fs0 e0 ts l c :
  EvLog l (MsgConfiguration c) ∈ events_of (start cfg e0 ts (initial fs0)) ->
  accessToken c = "[REDACTED]".
Proof.
  intros Hin.
  assert (H : Forall logs_redacted_token (events_of (start cfg e0 ts (initial fs0)))).
  { apply start_Forall.
    - intros l' m Hm. destruct m; try exact I. now destruct (Hm c0).
    - intros l' c' Hc. exact Hc.
    - intros f. apply load_redacted.
    - intros e s _. apply cycle_Forall.
      + intros l' m Hm. destruct m; try exact I. now destruct (Hm c0).
      + apply load_redacted.
      + intros file s' _. apply post_redacted. }
  rewrite Forall_forall in H. exact (H _ Hin).
Qed.

Lemma load_uploads_nothing cfg e s (Q : event -> Prop) :
  (forall ev, is_scan_event ev = true -> Q ev) ->
  Forall Q (events_of (loadImageFiles cfg e s)).
Proof.
  intros HQ. pose proof (load_events_scan cfg e s) as H.
  induction (events_of (loadImageFiles cfg e s)) as [|ev evs IH]; [constructor|].
  cbn in H. apply andb_true_iff in H as [H1 H2]. constructor; auto.
Qed.

Lemma post_uploads_image cfg e p s :
  is_image_file (basename p) = true ->
  Forall uploads_image (events_of (postImageToFediverse cfg e p s)).
Proof.
  destruct s as [q i f], p as [d n]. cbn [basename]. intros Himg. run. repeat step.
  all: repeat constructor; exact Himg.
Qed.

Lemma load_keeps_images cfg e s :
  Forall (fun file => is_image_file file = true) (imageFiles s) ->
  Forall (fun file => is_image_file file = true)
    (imageFiles (state_of (loadImageFiles cfg e s))).
Proof.
  destruct s as [q i f]. cbn [imageFiles]. intros Hq.
  destruct (load_spec cfg e q i f) as (q' & f' & evs & Hl & _ & Hr & _).
  rewrite Hl. cbn. destruct (result_of _).
  - destruct Hr as (d & _ & ->). apply filter_all_images.
  - destruct Hr as [-> _]. exact Hq.
Qed.

(** X17.  Only images are sent.  Every upload request of a run is for a
    file whose name has one of the four image extensions. *)
Theorem only_images_are_uploaded cfg fs0 e0 ts url field content name auth :
  EvRequest (PostMedia url field content name auth)
    ∈ events_of (start cfg e0 ts (initial fs0)) ->
  has_image_extension name.
Proof.
  intros Hin. apply is_image_file_iff.
  assert (H : Forall uploads_image (events_of (start cfg e0 ts (initial fs0)))).
  { apply start_Forall.
    - intros; exact I.
    - intros; exact I.
    - intros f. apply load_uploads_nothing. intros [] Hev; try exact I; discriminate Hev.
    - intros e s [_ Hq]. apply cycle_Forall.
      + intros; exact I.
      + apply load_uploads_nothing. intros [] Hev; try exact I; discriminate Hev.
      + intros file s' Hfile. apply post_uploads_image. cbn [basename path_join].
        pose proof (load_keeps_images cfg e s Hq) as Hq'.
        rewrite Forall_forall in Hq, Hq'. destruct Hfile; auto. }
  rewrite Forall_forall in H. exact (H _ Hin).
Qed.

Lemma load_within_folders cfg e s :
  Forall (within_folders cfg) (events_of (loadImageFiles cfg e s)).
Proof.
  destruct s as [q i f]. run. repeat step.
  all: repeat (apply Forall_cons; split); try apply Forall_nil; cbn; auto.
Qed.

Lemma post_within_folders cfg e file s :
  Forall (within_folders cfg)
    (events_of (postImageToFediverse cfg e (path_join (imageFolder cfg) file) s)).
Proof.
  destruct s as [q i f]. run. repeat step.
  all: repeat (apply Forall_cons; split); try apply Forall_nil; cbn; auto.
Qed.

(** X18.  A run stays within its two folders: directories are looked at
    or created under the two configured names only, the source folder
    alone is listed, files are read in the source folder only, and a
    file is only ever moved from the source folder into the archive
    folder, under its own name. *)
Theorem run_stays_within_folders cfg fs0 e0 ts :
  Forall (within_folders cfg) (events_of (start cfg e0 ts (initial fs0))).
Proof.
  apply start_Forall.
  - intros; exact I.
  - intros; exact I.
  - intros f. apply load_within_folders.
  - intros e s _. apply cycle_Forall.
    + intros; exact I.
    + apply load_within_folders.
    + intros file s' _. apply post_within_folders.
Qed.

(** ** The extension filter, again *)

Lemma lower_dot c : lower c = "."%char <-> c = "."%char.
Proof.
  split; [|now intros ->].
  destruct c as [[] [] [] [] [] [] [] []]; intros H; try reflexivity; discriminate H.
Qed.

Lemma lowercase_append a b : lowercase (a ++ b) = (lowercase a ++ lowercase b)%string.
Proof. induction a as [|c a IH]; string_app; cbn; string_app; congruence. Qed.

Lemma lowercase_append_inv b x y :
  lowercase b = (x ++ y)%string ->
  exists b1 b2, b = (b1 ++ b2)%string /\ lowercase b1 = x /\ lowercase b2 = y.
Proof.
  revert b. induction x as [|c x IH]; intros b H; string_app.
  - exists EmptyString, b. auto.
  - destruct b as [|c' b]; [discriminate|]. cbn in H. injection H as Hc H.
    destruct (IH b H) as (b1 & b2 & -> & H1 & H2).
    exists (String c' b1), b2. cbn. rewrite H1, Hc. auto.
Qed.

Lemma has_image_extension_case a b :
  lowercase a = lowercase b -> has_image_extension a -> has_image_extension b.
Proof.
  intros Hab (stem & ext & -> & Hext).
  rewrite !lowercase_append in Hab. symmetry in Hab.
  apply lowercase_append_inv in Hab as (b1 & b2 & -> & _ & H2).
  apply lowercase_append_inv in H2 as (dot & ext' & -> & Hd & He).
  destruct dot as [|c [|? ?]]; try discriminate Hd. cbn in Hd. injection Hd as Hd.
  apply (proj1 (lower_dot c)) in Hd as ->.
  exists b1, ext'. split; [reflexivity|]. now rewrite He.
Qed.

(** X19.  The filter ignores case throughout: two names that differ
    only in the case of their ASCII letters are both kept or both
    dropped. *)
Theorem filter_ignores_case a b :
  lowercase a = lowercase b -> is_image_file a = is_image_file b.
Proof.
  intros Hab.
  destruct (is_image_file a) eqn:Ha, (is_image_file b) eqn:Hb; try reflexivity.
  - apply is_image_file_iff, (has_image_extension_case a b Hab), is_image_file_iff in Ha.
    congruence.
  - apply is_image_file_iff, (has_image_extension_case b a (eq_sym Hab)),
      is_image_file_iff in Hb. congruence.
Qed.

Lemma dot_free_lowercase s : dot_free (lowercase s) = dot_free s.
Proof.
  induction s as [|c s IH]; cbn [dot_free lowercase]; [reflexivity|]. rewrite IH.
  f_equal. f_equal.
  destruct (Ascii.eqb_spec (lower c) ".") as [E|E], (Ascii.eqb_spec c ".") as [F|F];
    try reflexivity.
  - apply (proj1 (lower_dot c)) in E. contradiction.
  - subst c. now destruct E.
Qed.

Lemma last_dot_unique stem stem' ext ext' :
  dot_free ext = true -> dot_free ext' = true ->
  (stem ++ "." ++ ext)%string = (stem' ++ "." ++ ext')%string -> ext = ext'.
Proof.
  assert (Hdot : forall a b, dot_free (a ++ String "." b) = false).
  { intros a b. induction a as [|c a IH]; string_app; cbn [dot_free]; [reflexivity|].
    rewrite IH. apply andb_false_r. }
  revert stem'. induction stem as [|c stem IH]; intros stem' He He' H; string_app.
  - destruct stem' as [|c' stem']; string_app.
    + congruence.
    + injection H as H1 H2. subst. rewrite Hdot in He. discriminate.
  - destruct stem' as [|c' stem']; string_app; injection H as H1 H2.
    + subst. rewrite Hdot in He'. discriminate.
    + eapply IH; eauto.
Qed.

(** X20.  What counts is what follows the last dot: a name whose part
    after its last dot is [ext] is kept exactly when [ext] is one of
    jpg, jpeg, png, gif in any mix of cases, whatever comes before. *)
Theorem last_extension_decides stem ext :
  dot_free ext = true ->
  (is_image_file (stem ++ "." ++ ext) = true <-> lowercase ext ∈ image_extensions).
Proof.
  intros Hfree. rewrite is_image_file_iff. split.
  - intros (stem' & ext' & Heq & Hext).
    assert (Hfree' : dot_free ext' = true).
    { rewrite <- dot_free_lowercase. unfold image_extensions in Hext.
      rewrite !elem_of_cons, elem_of_nil in Hext.
      destruct Hext as [->|[->|[->|[->|[]]]]]; reflexivity. }
    now rewrite (last_dot_unique stem stem' ext ext' Hfree Hfree' Heq).
  - intros Hext. exists stem, ext. auto.
Qed.

(** ** After a successful move *)

Lemma dir_lookup_None_names n d : dir_lookup n d = None -> n ∉ dir_names d.
Proof.
  induction d as [|[m y] d IH]; cbn; [intros _; apply not_elem_of_nil|].
  destruct (String.eqb_spec m n) as [->|Hne]; [discriminate|].
  intros H. apply not_elem_of_cons. split; [congruence | now apply IH].
Qed.

Lemma post_successful_move cfg e p q i f :
  both_calls_succeed e (events_of (postImageToFediverse cfg e p (State q i f))) ->
  rename_succeeds (rename_image e) f p (path_join (postedFolder cfg) (basename p)) = true ->
  exists evs x,
    postImageToFediverse cfg e p (State q i f) =
      (Ret tt,
       State q i (alter (dir_put (basename p) x) (postedFolder cfg)
                    (alter (dir_remove (basename p)) (dirname p) f)),
       evs).
Proof.
  destruct p as [d n]. unfold both_calls_succeed. run. repeat step.
  all: cbn; intros (H1 & H2 & H3) Hmv;
       try discriminate H1; try discriminate H2; try discriminate H3; try discriminate Hmv.
  all: do 2 eexists; reflexivity.
Qed.

(** X21.  A file that was posted and moved is not picked up again: after
    a cycle in which both API calls succeed and the move goes through,
    the archive folder being another one than the source folder, every
    later scan of that file system that goes through leaves the name out
    of the queue. *)
Theorem archived_file_is_not_rescanned cfg e s file :
  0 <= currentIndex s ->
  imageFiles s !! Z.to_nat (currentIndex s) = Some file ->
  imageFolder cfg <> postedFolder cfg ->
  both_calls_succeed e (events_of (postNextImage cfg e s)) ->
  rename_succeeds (rename_image e) (fs s) (path_join (imageFolder cfg) file)
    (path_join (postedFolder cfg) file) = true ->
  forall e2 s2,
    fs s2 = fs (state_of (postNextImage cfg e s)) ->
    result_of (loadImageFiles_try cfg e2 s2) = Ret tt ->
    file ∉ imageFiles (state_of (loadImageFiles cfg e2 s2)).
Proof.
  destruct s as [q i f]. cbn [imageFiles currentIndex fs]. intros Hi Hl Hne.
  assert (Hr : 0 <= i < Z.of_nat (length q)).
  { apply lookup_lt_Some in Hl. lia. }
  assert (Hq : q <> []) by (intros ->; cbn in Hr; lia).
  assert (Hjs : js_index q i = Some file).
  { unfold js_index. destruct (Z.leb_spec 0 i); [exact Hl | lia]. }
  destruct (post_spec cfg e (path_join (imageFolder cfg) file) q i f)
    as (f' & evs & Hp & _).
  rewrite (cycle_nonempty cfg e q i f Hq).
  rewrite (selected_run cfg e q i f file f' evs Hjs Hp).
  cbn [events_of state_of fst snd fs]. intros Hboth Hmv.
  assert (Hboth' : both_calls_succeed e
            (events_of (postImageToFediverse cfg e (path_join (imageFolder cfg) file)
                          (State q i f)))).
  { rewrite Hp. revert Hboth. unfold both_calls_succeed, requests. cbn.
    rewrite omap_app. cbn. now rewrite app_nil_r. }
  destruct (post_successful_move cfg e (path_join (imageFolder cfg) file) q i f Hboth' Hmv)
    as (evs' & x & Hp').
  rewrite Hp in Hp'. injection Hp' as -> _.
  intros e2 s2 Hfs Hret. destruct (scan_result cfg e2 s2 Hret) as (_ & -> & _).
  rewrite Hfs. intros Hin. apply list_elem_of_In, filter_In in Hin as [Hin _].
  apply list_elem_of_In in Hin. revert Hin.
  pose proof (fs_lookup_moved_src f (path_join (imageFolder cfg) file)
                (path_join (postedFolder cfg) file) x Hne) as Hnone.
  cbn [basename dirname path_join] in *. unfold fs_lookup in Hnone. cbn in Hnone.
  unfold source_entries.
  destruct (_ !! imageFolder cfg) as [d|]; cbn in *.
  - now apply dir_lookup_None_names.
  - apply not_elem_of_nil.
Qed.

(** ** The further properties at work in the small world *)

Lemma ensure_concerns_its_directory_witness :
  mkdir_calls (events_of (ensureDirectoryExists None None "./posted" (initial example_fs)))
    = [] /\
  fs (state_of (ensureDirectoryExists None None "./posted" (initial example_fs)))
    = fs (initial example_fs).
Proof.
  assert (H : mkdir_calls (events_of (ensureDirectoryExists None None "./posted"
                                        (initial example_fs))) = [])
    by (vm_compute; reflexivity).
  split; [exact H|].
  exact (proj2 (proj2 (proj2
           (ensure_concerns_its_directory None None "./posted" (initial example_fs)))) H).
Defined.

Lemma ensure_rethrows_other_errors_witness :
  code (fs_error "EACCES") <> Some "ENOENT" /\
  ensureDirectoryExists (Some (fs_error "EACCES")) None "./images" (initial example_fs)
    = (Throw (fs_error "EACCES"), initial example_fs, [EvAccess "./images"]).
Proof.
  assert (H : code (fs_error "EACCES") <> Some "ENOENT") by discriminate.
  split; [exact H|].
  exact (ensure_rethrows_other_errors None "./images" (initial example_fs)
           (fs_error "EACCES") H).
Defined.

Lemma ensure_mkdir_on_absence_witness :
  bool_decide (fs (initial bare_fs) !! "./images" = None) = true /\
  mkdir_calls (events_of (ensureDirectoryExists None (Some (fs_error "EROFS")) "./images"
                            (initial bare_fs))) = ["./images"] /\
  result_of (ensureDirectoryExists None (Some (fs_error "EROFS")) "./images"
               (initial bare_fs)) = Throw (fs_error "EROFS").
Proof.
  assert (H : bool_decide (fs (initial bare_fs) !! "./images" = None) = true)
    by reflexivity.
  pose proof (ensure_mkdir_on_absence None (Some (fs_error "EROFS")) "./images"
                (initial bare_fs)) as [H1 H2].
  split; [exact H|]. split; [exact H1 | exact (H2 H)].
Defined.

Lemma scan_only_touches_directories_witness :
  mkdir_calls (events_of (loadImageFiles example_config calm (initial example_fs))) = [] /\
  fs (state_of (loadImageFiles example_config calm (initial example_fs)))
    = fs (initial example_fs).
Proof.
  assert (H : mkdir_calls (events_of (loadImageFiles example_config calm
                                        (initial example_fs))) = [])
    by (vm_compute; reflexivity).
  split; [exact H|].
  exact (proj2 (proj2 (proj2
           (scan_only_touches_directories example_config calm (initial example_fs)))) H).
Defined.

Lemma scan_keeps_listing_order_witness :
  result_of (loadImageFiles_try example_config calm (initial example_fs)) = Ret tt /\
  imageFiles (state_of (loadImageFiles example_config calm (initial example_fs)))
    `sublist_of` dir_names (source_entries example_config (fs (initial example_fs))).
Proof.
  assert (H : result_of (loadImageFiles_try example_config calm (initial example_fs)) = Ret tt)
    by (vm_compute; reflexivity).
  split; [exact H|].
  exact (proj1 (scan_keeps_listing_order example_config calm (initial example_fs) H)).
Defined.

Lemma rejected_upload_trace_witness :
  read_succeeds None example_fs (path_join "./images" "a.jpg") = true /\
  exists content,
    fs_lookup example_fs (path_join "./images" "a.jpg") = Some (File content) /\
    postImageToFediverse example_config (answers_with None unauthorized status_100 None)
      (path_join "./images" "a.jpg") (State ["a.jpg"; "b.png"] 0 example_fs) =
      (Ret tt, State ["a.jpg"; "b.png"] 0 example_fs,
       [EvLog LInfo (MsgAttempting (path_join "./images" "a.jpg"));
        EvReadFile (path_join "./images" "a.jpg"); EvLog LInfo MsgFileRead;
        EvLog LInfo MsgUploading;
        EvRequest (media_request example_config content "a.jpg")]
       ++ [EvLog LError (MsgErrorPosting "a.jpg" "Request failed with status code 401");
           EvLog LError (MsgResponseStatus 401);
           EvLog LError (MsgResponseData
                           (VObj [("error", VStr "The access token is invalid")]))]).
Proof.
  assert (H1 : read_succeeds
                 (readFile_image (answers_with None unauthorized status_100 None))
                 (fs (State ["a.jpg"; "b.png"] 0 example_fs))
                 (path_join "./images" "a.jpg") = true) by (vm_compute; reflexivity).
  split; [exact H1|].
  exact (rejected_upload_trace example_config (answers_with None unauthorized status_100 None)
           (path_join "./images" "a.jpg") (State ["a.jpg"; "b.png"] 0 example_fs)
           _ H1 eq_refl).
Defined.


Lemma cursor_outside_queue_throws_witness :
  imageFiles (State ["a.jpg"; "b.png"] 2 example_fs) <> [] /\
  exists err,
    postNextImage example_config calm (State ["a.jpg"; "b.png"] 2 example_fs)
      = (Throw err, State ["a.jpg"; "b.png"] 2 example_fs, [EvLog LInfo MsgPreparing]).
Proof.
  assert (H1 : imageFiles (State ["a.jpg"; "b.png"] 2 example_fs) <> []) by discriminate.
  split; [exact H1|].
  apply (cursor_outside_queue_throws example_config calm
           (State ["a.jpg"; "b.png"] 2 example_fs) H1).
  right. cbn. lia.
Defined.

Lemma refill_and_post_witness :
  result_of (loadImageFiles_try example_config calm (initial example_fs)) = Ret tt /\
  List.filter is_image_file (dir_names (source_entries example_config example_fs))
    = "a.jpg" :: ["b.png"] /\
  selections (events_of (postNextImage example_config calm (initial example_fs)))
    = [path_join "./images" "a.jpg"] /\
  imageFiles (state_of (postNextImage example_config calm (initial example_fs))) = ["b.png"].
Proof.
  assert (H1 : result_of (loadImageFiles_try example_config calm (initial example_fs))
               = Ret tt) by (vm_compute; reflexivity).
  assert (H2 : List.filter is_image_file
                 (dir_names (source_entries example_config (fs (initial example_fs))))
               = "a.jpg" :: ["b.png"]) by (vm_compute; reflexivity).
  pose proof (refill_and_post example_config calm (initial example_fs) "a.jpg" ["b.png"]
                eq_refl eq_refl H1 H2) as (_ & _ & H3 & H4 & _).
  split; [exact H1|]. split; [exact H2|]. split; [exact H3 | exact H4].
Defined.

Lemma queue_is_served_in_order_witness :
  (length [Tick None (answers_with None unauthorized status_100 None); Tick None calm]
   <= length (imageFiles (State ["a.jpg"; "b.png"; "c.gif"] 0 example_fs)))%nat /\
  selections (events_of (cycles example_config
                           [Tick None (answers_with None unauthorized status_100 None);
                            Tick None calm]
                           (State ["a.jpg"; "b.png"; "c.gif"] 0 example_fs)))
    = [path_join "./images" "a.jpg"; path_join "./images" "b.png"] /\
  imageFiles (state_of (cycles example_config
                          [Tick None (answers_with None unauthorized status_100 None);
                           Tick None calm]
                          (State ["a.jpg"; "b.png"; "c.gif"] 0 example_fs)))
    = ["c.gif"].
Proof.
  assert (H : (length [Tick None (answers_with None unauthorized status_100 None);
                       Tick None calm]
               <= length (imageFiles (State ["a.jpg"; "b.png"; "c.gif"] 0 example_fs)))%nat)
    by (cbn; lia).
  pose proof (queue_is_served_in_order example_config
                [Tick None (answers_with None unauthorized status_100 None); Tick None calm]
                (State ["a.jpg"; "b.png"; "c.gif"] 0 example_fs) eq_refl H)
    as (_ & H2 & _ & H4 & _).
  split; [exact H|]. split; [exact H2 | exact H4].
Defined.

Lemma run_serves_the_head_witness :
  "b.png" ∈ imageFiles (state_of (start example_config calm [Tick None calm]
                                    (initial example_fs))) /\
  has_image_extension "b.png".
Proof.
  assert (H : "b.png" ∈ imageFiles (state_of (start example_config calm [Tick None calm]
                                                (initial example_fs))))
    by (vm_compute; apply list_elem_of_here).
  split; [exact H|].
  exact (proj2 (run_serves_the_head example_config example_fs calm [Tick None calm]) _ H).
Defined.

Lemma configuration_is_logged_redacted_witness :
  EvLog LInfo (MsgConfiguration
                 {| instanceUrl := "https://social.example"; accessToken := "[REDACTED]";
                    imageFolder := "./images"; postedFolder := "./posted";
                    statusText := "#ZoltanAsanski #Photography #Art" |})
    ∈ events_of (start example_config calm [] (initial example_fs)) /\
  "[REDACTED]" = "[REDACTED]".
Proof.
  assert (H : EvLog LInfo (MsgConfiguration
                 {| instanceUrl := "https://social.example"; accessToken := "[REDACTED]";
                    imageFolder := "./images"; postedFolder := "./posted";
                    statusText := "#ZoltanAsanski #Photography #Art" |})
    ∈ events_of (start example_config calm [] (initial example_fs)))
    by (vm_compute; apply list_elem_of_further, list_elem_of_here).
  split; [exact H|].
  exact (configuration_is_logged_redacted example_config example_fs calm [] _ _ H).
Defined.

Lemma only_images_are_uploaded_witness :
  EvRequest (PostMedia "https://social.example/api/v1/media" "file" [Byte.x01] "a.jpg"
               "Bearer secret")
    ∈ events_of (start example_config calm [Tick None calm] (initial example_fs)) /\
  has_image_extension "a.jpg".
Proof.
  assert (H : EvRequest (PostMedia "https://social.example/api/v1/media" "file" [Byte.x01]
                           "a.jpg" "Bearer secret")
    ∈ events_of (start example_config calm [Tick None calm] (initial example_fs))).
  { vm_compute. repeat first [apply list_elem_of_here | apply list_elem_of_further]. }
  split; [exact H|].
  exact (only_images_are_uploaded example_config example_fs calm [Tick None calm]
           _ _ _ _ _ H).
Defined.

Lemma filter_ignores_case_witness :
  lowercase "Photo.JPG" = lowercase "photo.jpg" /\
  is_image_file "Photo.JPG" = is_image_file "photo.jpg".
Proof.
  assert (H : lowercase "Photo.JPG" = lowercase "photo.jpg") by reflexivity.
  split; [exact H|]. exact (filter_ignores_case "Photo.JPG" "photo.jpg" H).
Defined.

Lemma last_extension_decides_witness :
  dot_free "JPeG" = true /\
  (is_image_file ("holiday.v2" ++ "." ++ "JPeG") = true <->
   lowercase "JPeG" ∈ image_extensions).
Proof.
  assert (H : dot_free "JPeG" = true) by reflexivity.
  split; [exact H|]. exact (last_extension_decides "holiday.v2" "JPeG" H).
Defined.

Lemma archived_file_is_not_rescanned_witness :
  both_calls_succeed calm
    (events_of (postNextImage example_config calm (State ["a.jpg"; "b.png"] 0 example_fs))) /\
  rename_succeeds None example_fs (path_join "./images" "a.jpg")
    (path_join "./posted" "a.jpg") = true /\
  "a.jpg" ∉ imageFiles (state_of (loadImageFiles example_config calm
              (state_of (postNextImage example_config calm
                           (State ["a.jpg"; "b.png"] 0 example_fs))))).
Proof.
  assert (H1 : 0 <= currentIndex (State ["a.jpg"; "b.png"] 0 example_fs)) by (cbn; lia).
  assert (H2 : imageFiles (State ["a.jpg"; "b.png"] 0 example_fs)
                 !! Z.to_nat (currentIndex (State ["a.jpg"; "b.png"] 0 example_fs))
               = Some "a.jpg") by reflexivity.
  assert (H3 : imageFolder example_config <> postedFolder example_config) by discriminate.
  assert (H4 : both_calls_succeed calm
                 (events_of (postNextImage example_config calm
                               (State ["a.jpg"; "b.png"] 0 example_fs))))
    by (vm_compute; auto).
  assert (H5 : rename_succeeds (rename_image calm)
                 (fs (State ["a.jpg"; "b.png"] 0 example_fs))
                 (path_join (imageFolder example_config) "a.jpg")
                 (path_join (postedFolder example_config) "a.jpg") = true)
    by (vm_compute; reflexivity).
  split; [exact H4|]. split; [exact H5|].
  apply (archived_file_is_not_rescanned example_config calm
           (State ["a.jpg"; "b.png"] 0 example_fs) "a.jpg" H1 H2 H3 H4 H5 calm).
  - reflexivity.
  - vm_compute. reflexivity.
Defined.
